(** * VirtualList: a viewport-windowing list component

    Shallow embedding of [src/virtual-list/src/VirtualList.ts].

    Conventions of the embedding.
    - Numbers come in two models.  In the first a JavaScript [number] is an
      exact rational ([Q]), [Math.floor] and [Math.ceil] are [Qfloor] and
      [Qceiling]; it describes the code wherever binary64 arithmetic does not
      round, and serves for the properties that do not depend on the
      arithmetic.  In the second (module [B64]) a number is an IEEE 754
      binary64 value with correctly rounded operations, infinities, signed
      zeros and [NaN]; the claims on what the numeric code computes are
      settled there.
    - [undefined] is [None].
    - A [ref]/[computed] of the [setup] function is a field of, respectively a
      function on, the component instance.
    - The DOM element behind [listRef], the animation-frame queue and the
      calls made to the caller's observers form the host side of the state. *)

From Stdlib Require Import ZArith QArith Qround Qminmax Qcanon Qabs Lia Lqa.
From Stdlib Require Import SpecFloat.
From stdpp Require Import base option list gmap strings countable.

Local Open Scope Z_scope.

(** ** Numbers *)

(** A number of the exact model.  Module [B64] below has the binary64
    numbers; division by zero, which gives an infinity or [NaN] there, is
    kept out of the exact model by hypotheses. *)
Definition number : Type := Q.
Bind Scope Q_scope with number.

(** [a > b] and [a <= b] on numbers, as the booleans JavaScript computes. *)
Definition num_gt (a b : number) : bool := negb (Qle_bool a b).
Definition num_le (a b : number) : bool := Qle_bool a b.

(** [Number.MAX_SAFE_INTEGER] *)
Definition MAX_SAFE_INTEGER : number := inject_Z (2 ^ 53 - 1).

(** ** Items and props *)

(** [ItemData.key : string | number] *)
Inductive Key : Type :=
| KNum (n : Qc)
| KStr (s : string).

#[global] Instance Key_eq_dec : EqDecision Key.
Proof. solve_decision. Defined.

#[global] Instance Key_countable : Countable Key :=
  inj_countable'
    (fun k => match k with KNum n => inl n | KStr s => inr s end)
    (fun x => match x with inl n => KNum n | inr s => KStr s end)
    (fun k => match k with KNum _ | KStr _ => eq_refl end).

(** An item: its mandatory key, the rest of the object is opaque. *)
Record ItemData : Type := mkItem { key : Key; payload : string }.

(** A caller-supplied observer is opaque; a call to it is recorded in the
    host's event log. *)
Record Props : Type := mkProps {
  showScrollbar : bool;
  items : list ItemData;
  itemSize : number;
  onScroll : bool;            (* [onScroll !== undefined] *)
  onResize : bool;            (* [onResize !== undefined] *)
  defaultScrollKey : option Key;
  defaultScrollIndex : option number;
  paddingTop : number;
  paddingBottom : number
}.

(** [items.length], as a number *)
Definition items_length (p : Props) : Z := Z.of_nat (length (items p)).

(** [arr[i]] for an integral [i]: [undefined] out of range. *)
Definition js_index {A : Type} (arr : list A) (i : Z) : option A :=
  if (i <? 0)%Z then None else arr !! Z.to_nat i.

(** ** The DOM element behind [listRef] *)

Inductive ScrollBehavior : Type := BehaviorAuto | BehaviorInstant | BehaviorSmooth.

(** The argument of [Element.scrollTo] *)
Record ScrollToOptions : Type := mkScrollTo {
  st_left : option number;
  st_top : option number;
  st_behavior : option ScrollBehavior
}.

Record Element : Type := mkElement {
  el_scrollTop : number;
  el_offsetHeight : number
}.

(** ** Component instance *)

Record Instance : Type := mkInstance {
  props : Props;
  listRef : option Element;        (* [null] until the list is mounted *)
  listHeight : option number;      (* [listHeightRef] *)
  scrollTop : number;              (* [scrollTopRef] *)
  rafFlag : bool
}.

(** [preparedRef]: [listHeightRef.value !== undefined] *)
Definition preparedRef (c : Instance) : bool :=
  match listHeight c with Some _ => true | None => false end.

(** ** Geometry *)

(** [startIndexRef], in exact arithmetic; [B64.startIndexRef] is the same
    code in binary64. *)
Definition startIndexRef (c : Instance) : Z :=
  Z.max
    (Qfloor ((scrollTop c - paddingTop (props c)) / itemSize (props c)) - 1)
    0.

(** The [endIndex] constant of [viewportItemsRef], for a known height, in
    exact arithmetic; [B64.endIndex] is the same code in binary64. *)
Definition endIndex (c : Instance) (height : number) : Z :=
  let p := props c in
  Z.min
    (startIndexRef c
     + Qceiling
         (Qmin height
               (itemSize p * inject_Z (items_length p) + paddingTop p
                - scrollTop c)
          / itemSize p)
     + 1)
    (items_length p - 1).

(** [for (let i = lo; i <= hi; ++i) acc = body(i, acc)].  The recursion is on
    a bound of the number of iterations; [for_range] supplies the number of
    integers in [lo..hi], with which the loop always leaves by its test. *)
Fixpoint for_loop {A : Type} (fuel : nat) (i hi : Z) (body : Z -> A -> A)
    (acc : A) : A :=
  match fuel with
  | O => acc
  | S fuel' =>
      if (i <=? hi)%Z then for_loop fuel' (i + 1) hi body (body i acc)
      else acc
  end.

Definition for_range {A : Type} (lo hi : Z) (body : Z -> A -> A) (acc : A) : A :=
  for_loop (Z.to_nat (hi + 1 - lo)) lo hi body acc.

(** [viewportItemsRef]: the items pushed by the loop, in order.  The match
    on [listHeight] is the test [!preparedRef.value] together with the cast
    [listHeightRef.value as number]. *)
Definition viewportItemsRef (c : Instance) : list (option ItemData) :=
  match listHeight c with
  | None => []
  | Some height =>
      for_range (startIndexRef c) (endIndex c height)
        (fun i viewportItems => viewportItems ++ [js_index (items (props c)) i])
        []
  end.

(** The indices at which that loop reads [items], in order. *)
Definition viewportReads (c : Instance) : list Z :=
  match listHeight c with
  | None => []
  | Some height =>
      for_range (startIndexRef c) (endIndex c height)
        (fun i reads => reads ++ [i]) []
  end.

(** [`translate3d(${x}, ${y}px, ${z})`] *)
Inductive Transform : Type := translate3d (x : number) (y_px : number) (z : number).

Record ItemsStyle : Type := mkItemsStyle {
  is_height_px : number;
  is_paddingTop_px : number;
  is_paddingBottom_px : number
}.

(** [itemsStyle], in exact arithmetic; [B64.itemsStyle_height] is the
    product in binary64. *)
Definition itemsStyle (c : Instance) : ItemsStyle :=
  {| is_height_px := itemSize (props c) * inject_Z (items_length (props c));
     is_paddingTop_px := paddingTop (props c);
     is_paddingBottom_px := paddingBottom (props c) |}.

(** [visibleItemsStyle] *)
Definition visibleItemsStyle (c : Instance) : Transform :=
  translate3d 0 (inject_Z (startIndexRef c) * itemSize (props c)) 0.

(** ** Key index *)

(** [arr.forEach((item, index) => ...)], the callback threading a state. *)
Fixpoint forEach_from {A S : Type} (f : A -> nat -> S -> S) (index : nat)
    (arr : list A) (s : S) : S :=
  match arr with
  | [] => s
  | item :: rest => forEach_from f (Datatypes.S index) rest (f item index s)
  end.

Definition forEach {A S : Type} (f : A -> nat -> S -> S) (arr : list A) (s : S) : S :=
  forEach_from f 0%nat arr s.

(** [keyIndexMapRef]: [map.set(item.key, index)] for every item. *)
Definition keyIndexMapRef (c : Instance) : gmap Key nat :=
  forEach (fun item index map => <[key item := index]> map) (items (props c)) ∅.

(** ** Host side of the state *)

Record UIEvent : Type := mkUIEvent { ev_id : nat }.

(** [entry.contentRect.height] is all the component reads of an entry. *)
Record ResizeObserverEntry : Type := mkEntry { contentRect_height : number }.

(** What can be queued for the next frame. *)
Inductive Callback : Type := CbSyncViewport.

(** Calls that leave the component.  A call of an observer records the
    component instance as it is when the observer is entered. *)
Inductive HostCall : Type :=
| CallScrollTo (o : ScrollToOptions)
| CallNextFrame (cb : Callback)
| CallOnScroll (e : UIEvent) (seen : Instance)
| CallOnResize (entry : ResizeObserverEntry) (seen : Instance).

Record World : Type := mkWorld {
  inst : Instance;
  frames : list Callback;          (* callbacks waiting for the next frame *)
  log : list HostCall              (* host calls so far, oldest first *)
}.

(** A [TypeError] is what dereferencing a [null] [listRef] throws. *)
Inductive Result (A : Type) : Type :=
| Ok (a : A)
| TypeError.
Arguments Ok {A} a.
Arguments TypeError {A}.

Definition set_inst (f : Instance -> Instance) (w : World) : World :=
  {| inst := f (inst w); frames := frames w; log := log w |}.

Definition emit (call : HostCall) (w : World) : World :=
  {| inst := inst w; frames := frames w; log := log w ++ [call] |}.

Definition with_listRef (r : option Element) (c : Instance) : Instance :=
  {| props := props c; listRef := r; listHeight := listHeight c;
     scrollTop := scrollTop c; rafFlag := rafFlag c |}.

Definition with_listHeight (h : option number) (c : Instance) : Instance :=
  {| props := props c; listRef := listRef c; listHeight := h;
     scrollTop := scrollTop c; rafFlag := rafFlag c |}.

Definition with_scrollTop (t : number) (c : Instance) : Instance :=
  {| props := props c; listRef := listRef c; listHeight := listHeight c;
     scrollTop := t; rafFlag := rafFlag c |}.

Definition with_rafFlag (b : bool) (c : Instance) : Instance :=
  {| props := props c; listRef := listRef c; listHeight := listHeight c;
     scrollTop := scrollTop c; rafFlag := b |}.

Definition with_props (p : Props) (c : Instance) : Instance :=
  {| props := p; listRef := listRef c; listHeight := listHeight c;
     scrollTop := scrollTop c; rafFlag := rafFlag c |}.

(** Modelled from the spec: [nextFrame] of [../../shared] is not part of the
    sources at hand.  The spec describes it as the host's next-frame
    primitive: the callback is queued and runs once, at the next display
    refresh. *)
Definition nextFrame (cb : Callback) (w : World) : World :=
  emit (CallNextFrame cb)
    {| inst := inst w; frames := frames w ++ [cb]; log := log w |}.

(** ** Scroll controller *)

Inductive Position : Type := PositionTop | PositionBottom.

Record VScrollToOptions : Type := mkOptions {
  left : option number;
  top : option number;
  index : option number;
  okey : option Key;                (* the [key] option *)
  position : option Position;
  behavior : option ScrollBehavior;
  debounce : option bool
}.

Section ScrollController.

(** What the browser does to the element on [Element.scrollTo]: clamping,
    animation and the like are the host's business. *)
Variable host_scrollTo : Element -> ScrollToOptions -> Element.

(** [(listRef.value as HTMLDivElement).scrollTo(o)] on the element [el]
    that [listRef] holds. *)
Definition element_scrollTo (el : Element) (o : ScrollToOptions) (w : World) : World :=
  emit (CallScrollTo o) (set_inst (with_listRef (Some (host_scrollTo el o))) w).

(** [scrollToPosition] *)
Definition scrollToPosition (left top : option number)
    (behavior : option ScrollBehavior) (w : World) : Result World :=
  match listRef (inst w) with
  | None => TypeError
  | Some el =>
      Ok (element_scrollTo el
            {| st_left := left; st_top := top; st_behavior := behavior |} w)
  end.

(** [scrollToIndex], in exact arithmetic; [B64.scrollToIndex] is the same
    code in binary64. *)
Definition scrollToIndex (index : number) (behavior : option ScrollBehavior)
    (debounce : bool) (w : World) : Result World :=
  let p := props (inst w) in
  let targetTop := (index * itemSize p + paddingTop p)%Q in
  if negb debounce then
    match listRef (inst w) with
    | None => TypeError
    | Some el =>
        Ok (element_scrollTo el
              {| st_left := Some 0%Q; st_top := Some targetTop;
                 st_behavior := behavior |} w)
    end
  else
    match listRef (inst w) with
    | None => TypeError
    | Some el =>
        let scrollTop := el_scrollTop el in
        let offsetHeight := el_offsetHeight el in
        if num_gt targetTop scrollTop then
          if num_le (targetTop + itemSize p) (scrollTop + offsetHeight) then
            Ok w
          else
            Ok (element_scrollTo el
                  {| st_left := Some 0%Q;
                     st_top := Some (targetTop + itemSize p - offsetHeight)%Q;
                     st_behavior := behavior |} w)
        else
          Ok (element_scrollTo el
                {| st_left := Some 0%Q; st_top := Some targetTop;
                   st_behavior := behavior |} w)
    end.

(** [scrollTo] *)
Definition scrollTo (options : VScrollToOptions) (w : World) : Result World :=
  let debounce := default true (debounce options) in
  let behavior := behavior options in
  if bool_decide (left options <> None) || bool_decide (top options <> None) then
    scrollToPosition (left options) (top options) behavior w
  else
    match index options with
    | Some index => scrollToIndex index behavior debounce w
    | None =>
        match okey options with
        | Some key =>
            match keyIndexMapRef (inst w) !! key with
            | Some toIndex =>
                scrollToIndex (inject_Z (Z.of_nat toIndex)) behavior debounce w
            | None => Ok w
            end
        | None =>
            match position options with
            | Some PositionBottom =>
                scrollToPosition (Some 0%Q) (Some MAX_SAFE_INTEGER) behavior w
            | Some PositionTop =>
                scrollToPosition (Some 0%Q) (Some 0%Q) behavior w
            | None => Ok w
            end
        end
    end.

(** The [onMounted] hook. *)
Definition onMounted (w : World) : Result World :=
  match defaultScrollIndex (props (inst w)) with
  | Some defaultScrollIndex =>
      scrollTo {| left := None; top := None; index := Some defaultScrollIndex;
                  okey := None; position := None; behavior := None;
                  debounce := None |} w
  | None =>
      match defaultScrollKey (props (inst w)) with
      | Some defaultScrollKey =>
          scrollTo {| left := None; top := None; index := None;
                      okey := Some defaultScrollKey; position := None;
                      behavior := None; debounce := None |} w
      | None => Ok w
      end
  end.

End ScrollController.

(** ** Methods *)

(** [syncViewport] *)
Definition syncViewport (w : World) : Result World :=
  match listRef (inst w) with
  | None => TypeError
  | Some el =>
      Ok (set_inst (with_rafFlag false)
            (set_inst (with_scrollTop (el_scrollTop el)) w))
  end.

(** [handleListScroll] *)
Definition handleListScroll (e : UIEvent) (w : World) : World :=
  let w1 :=
    if negb (rafFlag (inst w)) then
      set_inst (with_rafFlag true) (nextFrame CbSyncViewport w)
    else w in
  if onScroll (props (inst w1)) then emit (CallOnScroll e (inst w1)) w1 else w1.

(** [handleListResize] *)
Definition handleListResize (entry : ResizeObserverEntry) (w : World) : World :=
  let w1 := set_inst (with_listHeight (Some (contentRect_height entry))) w in
  if onResize (props (inst w1)) then emit (CallOnResize entry (inst w1)) w1 else w1.

(** ** The host's event loop *)

Definition run_callback (cb : Callback) (w : World) : Result World :=
  match cb with
  | CbSyncViewport => syncViewport w
  end.

Fixpoint run_callbacks (cbs : list Callback) (w : World) : Result World :=
  match cbs with
  | [] => Ok w
  | cb :: rest =>
      match run_callback cb w with
      | Ok w' => run_callbacks rest w'
      | TypeError => TypeError
      end
  end.

(** A display refresh: the callbacks queued so far are taken off the queue
    and run, each once. *)
Definition run_frame (w : World) : Result World :=
  run_callbacks (frames w)
    {| inst := inst w; frames := []; log := log w |}.

(** The world in which [setup] has run and the list element [el] has been
    attached to [listRef], just before the [onMounted] hook. *)
Definition setup (p : Props) (el : Element) : World :=
  {| inst := {| props := p; listRef := Some el; listHeight := None;
                scrollTop := 0%Q; rafFlag := false |};
     frames := [];
     log := [] |}.

(** The user (or the browser, after a scroll command) moves the element. *)
Definition element_scrolled (newTop : number) (w : World) : World :=
  match listRef (inst w) with
  | None => w
  | Some el =>
      set_inst
        (with_listRef
           (Some {| el_scrollTop := newTop; el_offsetHeight := el_offsetHeight el |}))
        w
  end.

Section EventLoop.

Variable host_scrollTo : Element -> ScrollToOptions -> Element.

(** One turn of the event loop, as seen from the component. *)
Inductive step : World -> World -> Prop :=
| step_scroll (newTop : number) (e : UIEvent) (w : World) :
    step w (handleListScroll e (element_scrolled newTop w))
| step_resize (entry : ResizeObserverEntry) (w : World) :
    step w (handleListResize entry w)
| step_frame (w w' : World) :
    run_frame w = Ok w' -> step w w'
| step_scrollTo (options : VScrollToOptions) (w w' : World) :
    scrollTo host_scrollTo options w = Ok w' -> step w w'
| step_props (p : Props) (w : World) :
    step w (set_inst (with_props p) w).

(** The worlds a mounted component can be in. *)
Inductive reachable : World -> Prop :=
| reachable_mounted (p : Props) (el : Element) (w : World) :
    onMounted host_scrollTo (setup p el) = Ok w -> reachable w
| reachable_step (w w' : World) :
    reachable w -> step w w' -> reachable w'.

End EventLoop.

(** ** Render *)

Inductive VStyle : Type :=
| NoStyle
| StyleItems (s : ItemsStyle)
| StyleTransform (t : Transform).

Local Unset Elimination Schemes.

(** Virtual nodes, as far as the component builds them.  Attributes
    forwarded from [$attrs] and event handlers are not represented. *)
Inductive VNode : Type :=
| VElem (tag : string) (classes : list string) (style : VStyle)
    (children : list VNode)
| VRenderSlot (name : string) (item : option ItemData) (index : nat)
| VArray (nodes : list VNode)
| VUndefined.

Local Set Elimination Schemes.

(** [$slots]: the content of the [empty] slot, when the caller gave one. *)
Record Slots : Type := mkSlots { slot_empty : option (list VNode) }.

(** [this.$slots.empty?.()] *)
Definition call_empty_slot (slots : Slots) : VNode :=
  match slot_empty slots with
  | Some nodes => VArray nodes
  | None => VUndefined
  end.

(** [renderList(source, (item, index) => renderSlot($slots, 'default', { item, index }))] *)
Definition renderList (source : list (option ItemData)) : list VNode :=
  imap (fun index item => VRenderSlot "default" item index) source.

(** The only child of the list element. *)
Definition render_content (c : Instance) (slots : Slots) : VNode :=
  if negb (items_length (props c) =? 0)%Z then
    VElem "div" ["v-vl-items"] (StyleItems (itemsStyle c))
      [VElem "div" ["v-vl-visible-items"] (StyleTransform (visibleItemsStyle c))
         (renderList (viewportItemsRef c))]
  else call_empty_slot slots.

(** [render] *)
Definition render (c : Instance) (slots : Slots) : VNode :=
  VElem "VResizeObserver" [] NoStyle
    [VElem "div"
       ("v-vl" :: if showScrollbar (props c) then ["v-vl--show-scrollbar"] else [])
       NoStyle
       [render_content c slots]].

(** * Specification-side definitions and sample data *)

(** A list of [n] items with numeric keys [0 .. n-1]. *)
Definition sample_items (n : nat) : list ItemData :=
  map (fun i => mkItem (KNum (Q2Qc (inject_Z (Z.of_nat i)))) "row") (seq 0 n).

Definition sample_props (n : nat) (size padTop : number) : Props :=
  {| showScrollbar := true; items := sample_items n; itemSize := size;
     onScroll := true; onResize := true;
     defaultScrollKey := None; defaultScrollIndex := None;
     paddingTop := padTop; paddingBottom := 0 |}.

(** A mounted instance: [n] items, the element scrolled to [offset]. *)
Definition sample_instance (n : nat) (size padTop : number)
    (height : option number) (offset : number) : Instance :=
  {| props := sample_props n size padTop;
     listRef := Some {| el_scrollTop := offset; el_offsetHeight := default 0%Q height |};
     listHeight := height;
     scrollTop := offset;
     rafFlag := false |}.

(** One row of height 10 in a viewport of height 100, scrolled to 100: the
    bottom padding of 500 makes the content 510 high, so that the offset can
    be reached. *)
Definition overscrolled : Instance :=
  {| props :=
       {| showScrollbar := true; items := sample_items 1; itemSize := 10;
          onScroll := false; onResize := false;
          defaultScrollKey := None; defaultScrollIndex := None;
          paddingTop := 0; paddingBottom := 500 |};
     listRef := Some {| el_scrollTop := 100; el_offsetHeight := 100 |};
     listHeight := Some 100%Q;
     scrollTop := 100;
     rafFlag := false |}.

(** A host that jumps at once to the requested top offset. *)
Definition instant_host (el : Element) (o : ScrollToOptions) : Element :=
  {| el_scrollTop := default (el_scrollTop el) (st_top o);
     el_offsetHeight := el_offsetHeight el |}.

(** A mounted list of [n] rows of height [size], its element of height
    [height] scrolled to [offset]. *)
Definition sample_world (n : nat) (size padTop height offset : number) : World :=
  setup (sample_props n size padTop)
    {| el_scrollTop := offset; el_offsetHeight := height |}.

(** [scroll_command top behavior] is the argument [{ left: 0, top, behavior }]. *)
Definition scroll_command (top : number) (behavior : option ScrollBehavior) :
    ScrollToOptions :=
  {| st_left := Some 0%Q; st_top := Some top; st_behavior := behavior |}.

(** What the spec calls the honored option: the first recognized one in the
    order pixel position, index, key, named edge position; the others are
    dropped.  [behavior] and [debounce] are not navigation options and stay. *)
Definition spec_honored (o : VScrollToOptions) : VScrollToOptions :=
  match left o, top o, index o, okey o with
  | Some _, _, _, _ | _, Some _, _, _ =>
      {| left := left o; top := top o; index := None; okey := None;
         position := None; behavior := behavior o; debounce := debounce o |}
  | None, None, Some i, _ =>
      {| left := None; top := None; index := Some i; okey := None;
         position := None; behavior := behavior o; debounce := debounce o |}
  | None, None, None, Some k =>
      {| left := None; top := None; index := None; okey := Some k;
         position := None; behavior := behavior o; debounce := debounce o |}
  | None, None, None, None =>
      {| left := None; top := None; index := None; okey := None;
         position := position o; behavior := behavior o; debounce := debounce o |}
  end.

(** Every navigation option at once. *)
Definition contradictory_options : VScrollToOptions :=
  {| left := Some 5%Q; top := None; index := Some 50%Q;
     okey := Some (KStr "missing"); position := Some PositionBottom;
     behavior := Some BehaviorSmooth; debounce := Some false |}.

(** The component's scroll offset agrees with the list element's. *)
Definition offset_synced (c : Instance) : Prop :=
  match listRef c with
  | Some el => (scrollTop c == el_scrollTop el)%Q
  | None => True
  end.

(** A hundred rows; the user scrolls the element to 100 and the scroll event
    reaches the handler. *)
Definition after_scroll_event : World :=
  handleListScroll (mkUIEvent 1) (element_scrolled 100 (sample_world 100 20 0 200 0)).

(** The queue holds [syncViewport] exactly while the guard flag is set, and
    the list element is attached. *)
Definition frame_invariant (w : World) : Prop :=
  frames w = (if rafFlag (inst w) then [CbSyncViewport] else [])
  /\ listRef (inst w) <> None.

(** Two scroll events in a row, no frame in between. *)
Definition two_scroll_events : World :=
  handleListScroll (mkUIEvent 2)
    (element_scrolled 140
       (handleListScroll (mkUIEvent 1)
          (element_scrolled 100 (sample_world 100 20 0 200 0)))).

(** A host that puts the element exactly where a command asks, and leaves
    its height alone. *)
Definition exact_host (host : Element -> ScrollToOptions -> Element) : Prop :=
  forall (el : Element) (t : number) (b : option ScrollBehavior),
    host el (scroll_command t b)
    = {| el_scrollTop := t; el_offsetHeight := el_offsetHeight el |}.

(** The element is moved and a scroll event handled, for each entry in turn. *)
Definition scroll_events (evs : list (number * UIEvent)) (w : World) : World :=
  fold_left (fun w ev => handleListScroll (snd ev) (element_scrolled (fst ev) w))
    evs w.

Definition is_nextFrame (call : HostCall) : bool :=
  match call with CallNextFrame _ => true | _ => false end.

Definition is_onScroll (call : HostCall) : bool :=
  match call with CallOnScroll _ _ => true | _ => false end.

(** A call either leaves the world alone or hands one command to the element. *)
Definition one_command_or_none (host : Element -> ScrollToOptions -> Element)
    (w w' : World) : Prop :=
  w' = w
  \/ exists (el : Element) (cmd : ScrollToOptions),
       listRef (inst w) = Some el /\ w' = element_scrollTo host el cmd w.

(** How many calls in a log satisfy [f]. *)
Definition count_calls (f : HostCall -> bool) (l : list HostCall) : nat :=
  length (List.filter f l).

(** A thousand rows of height 30 in a viewport of height 100, scrolled to 305. *)
Definition scrolled_instance : Instance := sample_instance 1000 30 0 (Some 100%Q) 305.

(** The sample list before its element is attached. *)
Definition unmounted_world : World :=
  set_inst (with_listRef None) (sample_world 100 20 0 200 0).

(** * Binary64 model of the numeric code

    The definitions above compute with exact rationals.  That is what the
    code does as long as no operation rounds (integer-valued sizes and
    offsets of moderate size), and it is enough for properties that do not
    depend on rounding.  What follows embeds the same numeric code over
    IEEE 754 binary64, the arithmetic of JavaScript numbers, with the
    operations of the Standard Library's [SpecFloat]: correctly rounded
    [+], [-], [*], [/], infinities, signed zeros and [NaN]. *)

Module B64.

(** A binary64 number. *)
Definition b64 : Type := spec_float.

Definition prec : Z := 53.
Definition emax : Z := 1024.

Definition add : b64 -> b64 -> b64 := SFadd prec emax.
Definition sub : b64 -> b64 -> b64 := SFsub prec emax.
Definition mul : b64 -> b64 -> b64 := SFmul prec emax.
Definition div : b64 -> b64 -> b64 := SFdiv prec emax.

(** [a < b], [a <= b] and [a > b]; each is [false] when an operand is [NaN]. *)
Definition lt (a b : b64) : bool := SFltb a b.
Definition le (a b : b64) : bool := SFleb a b.
Definition gt (a b : b64) : bool := SFltb b a.

(** The binary64 number nearest to an integer: the integer itself when its
    magnitude is at most [2^53]. *)
Definition of_Z (z : Z) : b64 := binary_normalize prec emax z 0 false.

(** The number that a decimal literal with value [p/q] denotes. *)
Definition dec (p q : Z) : b64 := div (of_Z p) (of_Z q).

Definition zero : b64 := of_Z 0.
Definition one : b64 := of_Z 1.

(** The rational that a finite number stands for. *)
Definition value (x : b64) : option Q :=
  match x with
  | S754_zero _ => Some 0%Q
  | S754_finite s m e =>
      let z := cond_Zopp s (Zpos m) in
      Some (if (0 <=? e)%Z then inject_Z (z * 2 ^ e)
            else (inject_Z z / inject_Z (2 ^ (- e)))%Q)
  | S754_infinity _ | S754_nan => None
  end.

(** [Math.floor]: numbers without a fractional part, infinities and [NaN]
    are returned as they are. *)
Definition Math_floor (x : b64) : b64 :=
  match x with
  | S754_finite s m e =>
      if (0 <=? e)%Z then x else of_Z (cond_Zopp s (Zpos m) / 2 ^ (- e))
  | _ => x
  end.

(** [Math.ceil] *)
Definition Math_ceil (x : b64) : b64 := SFopp (Math_floor (SFopp x)).

(** [Math.max]: [NaN] if an argument is; [+0] is above [-0]. *)
Definition Math_max (a b : b64) : b64 :=
  match SFcompare a b with
  | None => S754_nan
  | Some Lt => b
  | Some Gt => a
  | Some Eq => match a with S754_zero true => b | _ => a end
  end.

(** [Math.min] *)
Definition Math_min (a b : b64) : b64 :=
  match SFcompare a b with
  | None => S754_nan
  | Some Lt => a
  | Some Gt => b
  | Some Eq => match a with S754_zero false => b | _ => a end
  end.

Record Props : Type := mkProps {
  showScrollbar : bool;
  items : list ItemData;
  itemSize : b64;
  onScroll : bool;
  onResize : bool;
  defaultScrollKey : option Key;
  defaultScrollIndex : option b64;
  paddingTop : b64;
  paddingBottom : b64
}.

Record ScrollToOptions : Type := mkScrollTo {
  st_left : option b64;
  st_top : option b64;
  st_behavior : option ScrollBehavior
}.

Record Element : Type := mkElement {
  el_scrollTop : b64;
  el_offsetHeight : b64
}.

Record Instance : Type := mkInstance {
  props : Props;
  listRef : option Element;
  listHeight : option b64;
  scrollTop : b64;
  rafFlag : bool
}.

(** [items.length] *)
Definition items_length (p : Props) : b64 := of_Z (Z.of_nat (length (items p))).

(** [startIndexRef] *)
Definition startIndexRef (c : Instance) : b64 :=
  Math_max
    (sub (Math_floor (div (sub (scrollTop c) (paddingTop (props c)))
                          (itemSize (props c))))
         one)
    zero.

(** The [endIndex] constant of [viewportItemsRef], for a known height. *)
Definition endIndex (c : Instance) (height : b64) : b64 :=
  let p := props c in
  Math_min
    (add (add (startIndexRef c)
              (Math_ceil
                 (div (Math_min height
                                (sub (add (mul (itemSize p) (items_length p))
                                          (paddingTop p))
                                     (scrollTop c)))
                      (itemSize p))))
         one)
    (sub (items_length p) one).

(** The array index that a number used as a property key denotes, if any:
    a number without fractional part ([-0] is index 0). *)
Definition array_index (i : b64) : option Z :=
  match i with
  | S754_zero _ => Some 0
  | S754_finite s m e =>
      let z := cond_Zopp s (Zpos m) in
      if (0 <=? e)%Z then Some (z * 2 ^ e)
      else if (z mod 2 ^ (- e) =? 0)%Z then Some (z / 2 ^ (- e)) else None
  | S754_infinity _ | S754_nan => None
  end.

(** [arr[i]] *)
Definition js_index {A : Type} (arr : list A) (i : b64) : option A :=
  match array_index i with
  | Some z => js_index arr z
  | None => None
  end.

(** [for (let i = lo; i <= hi; ++i) acc = body(i, acc)], with [i] a number.
    [None] when [fuel] iterations do not reach the end of the loop. *)
Fixpoint for_loop {A : Type} (fuel : nat) (i hi : b64) (body : b64 -> A -> A)
    (acc : A) : option A :=
  if le i hi then
    match fuel with
    | O => None
    | S fuel' => for_loop fuel' (add i one) hi body (body i acc)
    end
  else Some acc.

(** [viewportItemsRef], the loop allowed [fuel] iterations. *)
Definition viewportItemsRef (fuel : nat) (c : Instance) :
    option (list (option ItemData)) :=
  match listHeight c with
  | None => Some []
  | Some height =>
      for_loop fuel (startIndexRef c) (endIndex c height)
        (fun i viewportItems => viewportItems ++ [js_index (items (props c)) i])
        []
  end.

(** The numbers at which that loop reads [items]. *)
Definition viewportReads (fuel : nat) (c : Instance) : option (list b64) :=
  match listHeight c with
  | None => Some []
  | Some height =>
      for_loop fuel (startIndexRef c) (endIndex c height)
        (fun i reads => reads ++ [i]) []
  end.

(** [itemsStyle]: the pixel lengths before they are printed. *)
Definition itemsStyle_height (c : Instance) : b64 :=
  mul (itemSize (props c)) (items_length (props c)).

(** [visibleItemsStyle]: the vertical translation, in pixels. *)
Definition visibleItemsStyle_translateY (c : Instance) : b64 :=
  mul (startIndexRef c) (itemSize (props c)).

(** The instance and the commands given so far to the list element. *)
Record World : Type := mkWorld {
  inst : Instance;
  log : list ScrollToOptions
}.

Definition with_listRef (r : option Element) (c : Instance) : Instance :=
  {| props := props c; listRef := r; listHeight := listHeight c;
     scrollTop := scrollTop c; rafFlag := rafFlag c |}.

Section ScrollController.

Variable host_scrollTo : Element -> ScrollToOptions -> Element.

(** [(listRef.value as HTMLDivElement).scrollTo(o)] *)
Definition element_scrollTo (el : Element) (o : ScrollToOptions) (w : World) : World :=
  {| inst := with_listRef (Some (host_scrollTo el o)) (inst w);
     log := log w ++ [o] |}.

(** [scrollToPosition] *)
Definition scrollToPosition (left top : option b64)
    (behavior : option ScrollBehavior) (w : World) : Result World :=
  match listRef (inst w) with
  | None => TypeError
  | Some el =>
      Ok (element_scrollTo el
            {| st_left := left; st_top := top; st_behavior := behavior |} w)
  end.

(** [scrollToIndex] *)
Definition scrollToIndex (index : b64) (behavior : option ScrollBehavior)
    (debounce : bool) (w : World) : Result World :=
  let p := props (inst w) in
  let targetTop := add (mul index (itemSize p)) (paddingTop p) in
  if negb debounce then
    match listRef (inst w) with
    | None => TypeError
    | Some el =>
        Ok (element_scrollTo el
              {| st_left := Some zero; st_top := Some targetTop;
                 st_behavior := behavior |} w)
    end
  else
    match listRef (inst w) with
    | None => TypeError
    | Some el =>
        let scrollTop := el_scrollTop el in
        let offsetHeight := el_offsetHeight el in
        if gt targetTop scrollTop then
          if le (add targetTop (itemSize p)) (add scrollTop offsetHeight) then
            Ok w
          else
            Ok (element_scrollTo el
                  {| st_left := Some zero;
                     st_top := Some (sub (add targetTop (itemSize p)) offsetHeight);
                     st_behavior := behavior |} w)
        else
          Ok (element_scrollTo el
                {| st_left := Some zero; st_top := Some targetTop;
                   st_behavior := behavior |} w)
    end.

End ScrollController.

End B64.

(** The formulas of the spec for the start and the end index, evaluated in
    binary64. *)
Definition spec64_startIndex (scrollOffset paddingTop itemSize : B64.b64) : B64.b64 :=
  B64.Math_max
    (B64.sub (B64.Math_floor (B64.div (B64.sub scrollOffset paddingTop) itemSize))
             B64.one)
    B64.zero.

Definition spec64_endIndex (startIndex viewportHeight itemSize itemCount
    paddingTop scrollOffset : B64.b64) : B64.b64 :=
  B64.Math_min
    (B64.add
       (B64.add startIndex
          (B64.Math_ceil
             (B64.div
                (B64.Math_min viewportHeight
                   (B64.sub (B64.add (B64.mul itemSize itemCount) paddingTop)
                            scrollOffset))
                itemSize)))
       B64.one)
    (B64.sub itemCount B64.one).

(** [{ left: 0, top, behavior }] *)
Definition scroll_command64 (top : B64.b64) (behavior : option ScrollBehavior) :
    B64.ScrollToOptions :=
  {| B64.st_left := Some B64.zero; B64.st_top := Some top;
     B64.st_behavior := behavior |}.

(** A host that jumps at once to the requested top offset. *)
Definition instant_host64 (el : B64.Element) (o : B64.ScrollToOptions) : B64.Element :=
  {| B64.el_scrollTop := default (B64.el_scrollTop el) (B64.st_top o);
     B64.el_offsetHeight := B64.el_offsetHeight el |}.

Definition sample64_props (n : nat) (size padTop : B64.b64) : B64.Props :=
  {| B64.showScrollbar := true; B64.items := sample_items n;
     B64.itemSize := size; B64.onScroll := true; B64.onResize := true;
     B64.defaultScrollKey := None; B64.defaultScrollIndex := None;
     B64.paddingTop := padTop; B64.paddingBottom := B64.zero |}.

(** A mounted instance of [n] rows with a known height, scrolled to [offset]. *)
Definition sample64_instance (n : nat) (size padTop height offset : B64.b64) :
    B64.Instance :=
  {| B64.props := sample64_props n size padTop;
     B64.listRef := Some {| B64.el_scrollTop := offset;
                            B64.el_offsetHeight := height |};
     B64.listHeight := Some height;
     B64.scrollTop := offset;
     B64.rafFlag := false |}.

Definition sample64_world (n : nat) (size padTop height offset : B64.b64) : B64.World :=
  {| B64.inst :=
       {| B64.props := sample64_props n size padTop;
          B64.listRef := Some {| B64.el_scrollTop := offset;
                                 B64.el_offsetHeight := height |};
          B64.listHeight := None;
          B64.scrollTop := B64.zero;
          B64.rafFlag := false |};
     B64.log := [] |}.

(** Do the two models give the same window for [n] rows and these integer
    sizes and offsets? *)
Definition same_window (n : nat) (sz pt h s : Z) : bool :=
  let c := sample_instance n (inject_Z sz) (inject_Z pt) (Some (inject_Z h))
             (inject_Z s) in
  let c64 := sample64_instance n (B64.of_Z sz) (B64.of_Z pt) (B64.of_Z h)
               (B64.of_Z s) in
  match B64.array_index (B64.startIndexRef c64),
        B64.array_index (B64.endIndex c64 (B64.of_Z h)) with
  | Some start, Some end_ =>
      (start =? startIndexRef c)%Z && (end_ =? endIndex c (inject_Z h))%Z
  | _, _ => false
  end.

(** [same_window] on a grid of small integers. *)
Definition same_window_on_grid : bool :=
  forallb (fun n =>
    forallb (fun sz =>
      forallb (fun pt =>
        forallb (fun h =>
          forallb (fun s => same_window n sz pt h s) (seqZ 0 41))
          [0; 1; 5; 10; 33])
        (seqZ 0 3))
      (seqZ 1 7))
    [1%nat; 2%nat; 5%nat].

(** A number that is [NaN], a zero or above zero. *)
Definition not_negative (x : B64.b64) : Prop :=
  match x with
  | S754_nan | S754_zero _ => True
  | S754_infinity s | S754_finite s _ _ => s = false
  end.

(** A number that is [NaN] or below zero. *)
Definition negative_or_nan (x : B64.b64) : Prop :=
  match x with
  | S754_nan => True
  | S754_zero _ => False
  | S754_infinity s | S754_finite s _ _ => s = true
  end.

(** An integer-valued rational. *)
Definition integral (x : number) : Prop := exists z : Z, (x == inject_Z z)%Q.

(** Sizes and offsets on which the binary64 arithmetic of [startIndexRef]
    does not round: integers well below [2^53]. *)
Definition exact_start (c : Instance) : Prop :=
  integral (itemSize (props c))
  /\ integral (paddingTop (props c))
  /\ integral (scrollTop c)
  /\ (itemSize (props c) + Qabs (paddingTop (props c)) + Qabs (scrollTop c)
      <= inject_Z (2 ^ 52))%Q.

(** Sizes and offsets on which the binary64 arithmetic of the geometry code
    does not round, so that it computes what the exact definitions
    compute: integers, the content well below [2^53]. *)
Definition exact_geometry (c : Instance) (height : number) : Prop :=
  integral (itemSize (props c))
  /\ integral (paddingTop (props c))
  /\ integral (scrollTop c)
  /\ integral height
  /\ (itemSize (props c) * inject_Z (items_length (props c) + 2)
      + Qabs (paddingTop (props c)) + Qabs (scrollTop c) + Qabs height
      <= inject_Z (2 ^ 52))%Q.

(** The same for a scroll to [index] in a list whose element is [el]. *)
Definition exact_scroll (p : Props) (el : Element) (index : number) : Prop :=
  integral index
  /\ integral (itemSize p)
  /\ integral (paddingTop p)
  /\ integral (el_scrollTop el)
  /\ integral (el_offsetHeight el)
  /\ (Qabs index * Qabs (itemSize p) + Qabs (itemSize p) + Qabs (paddingTop p)
      + Qabs (el_scrollTop el) + Qabs (el_offsetHeight el)
      <= inject_Z (2 ^ 52))%Q.

(** * Properties *)

(** ** Comparisons *)

Lemma num_gt_spec (a b : number) : num_gt a b = true <-> (b < a)%Q.
Proof.
  unfold num_gt. rewrite negb_true_iff, <- not_true_iff_false, Qle_bool_iff.
  split; [apply Qnot_le_lt | apply Qlt_not_le].
Qed.

Lemma num_gt_false (a b : number) : num_gt a b = false <-> (a <= b)%Q.
Proof. unfold num_gt. rewrite negb_false_iff. apply Qle_bool_iff. Qed.

Lemma num_le_spec (a b : number) : num_le a b = true <-> (a <= b)%Q.
Proof. apply Qle_bool_iff. Qed.

Lemma num_le_false (a b : number) : num_le a b = false <-> (b < a)%Q.
Proof.
  unfold num_le. rewrite <- not_true_iff_false, Qle_bool_iff.
  split; [apply Qnot_le_lt | apply Qlt_not_le].
Qed.

(** *** Rounding *)

Lemma Qfloor_ge_iff (k : Z) (x : Q) : k <= Qfloor x <-> (inject_Z k <= x)%Q.
Proof.
  split; intros H.
  - apply Qle_trans with (inject_Z (Qfloor x)); [| apply Qfloor_le].
    rewrite <- Zle_Qle. exact H.
  - rewrite <- (Qfloor_Z k). apply Qfloor_resp_le. exact H.
Qed.

Lemma Qfloor_lt_iff (k : Z) (x : Q) : Qfloor x < k <-> (x < inject_Z k)%Q.
Proof.
  split; intros H.
  - apply Qnot_le_lt. intros Hle. apply Qfloor_ge_iff in Hle. lia.
  - apply Z.nle_gt. intros Hle. apply Qfloor_ge_iff in Hle.
    apply (Qlt_not_le _ _ H Hle).
Qed.

Lemma Qceiling_le_iff (k : Z) (x : Q) : Qceiling x <= k <-> (x <= inject_Z k)%Q.
Proof.
  split; intros H.
  - apply Qle_trans with (inject_Z (Qceiling x)); [apply Qle_ceiling |].
    rewrite <- Zle_Qle. exact H.
  - rewrite <- (Qceiling_Z k). apply Qceiling_resp_le. exact H.
Qed.

Lemma Qceiling_gt_iff (k : Z) (x : Q) : k < Qceiling x <-> (inject_Z k < x)%Q.
Proof.
  split; intros H.
  - apply Qnot_le_lt. intros Hle. apply Qceiling_le_iff in Hle. lia.
  - apply Z.nle_gt. intros Hle. apply Qceiling_le_iff in Hle.
    apply (Qlt_not_le _ _ H Hle).
Qed.

Lemma Qfloor_unique (k : Z) (x : Q) :
  (inject_Z k <= x)%Q -> (x < inject_Z k + 1)%Q -> Qfloor x = k.
Proof.
  intros Hlo Hhi. apply Qfloor_ge_iff in Hlo.
  assert (Qfloor x < k + 1); [| lia].
  apply Qfloor_lt_iff. rewrite inject_Z_plus. exact Hhi.
Qed.

Lemma Qceiling_unique (k : Z) (x : Q) :
  (inject_Z k - 1 < x)%Q -> (x <= inject_Z k)%Q -> Qceiling x = k.
Proof.
  intros Hlo Hhi. apply Qceiling_le_iff in Hhi.
  assert (k - 1 < Qceiling x); [| lia].
  apply Qceiling_gt_iff. unfold Z.sub. rewrite inject_Z_plus. exact Hlo.
Qed.

(** Comparing a quotient with an integer, the divisor being positive. *)
Lemma Qdiv_ge_iff (k : Z) (x sz : Q) :
  (0 < sz)%Q -> (inject_Z k <= x / sz)%Q <-> (inject_Z k * sz <= x)%Q.
Proof.
  intros Hsz.
  assert (Hx : (x == (x / sz) * sz)%Q).
  { field. intros E. rewrite E in Hsz. inversion Hsz. }
  rewrite Hx at 2. symmetry. apply Qmult_le_r. exact Hsz.
Qed.

Lemma Qdiv_lt_iff (k : Z) (x sz : Q) :
  (0 < sz)%Q -> (x / sz < inject_Z k)%Q <-> (x < inject_Z k * sz)%Q.
Proof.
  intros Hsz.
  assert (Hx : (x == (x / sz) * sz)%Q).
  { field. intros E. rewrite E in Hsz. inversion Hsz. }
  rewrite Hx at 2. symmetry. apply Qmult_lt_r. exact Hsz.
Qed.

Lemma Qdiv_gt_iff (k : Z) (x sz : Q) :
  (0 < sz)%Q -> (inject_Z k < x / sz)%Q <-> (inject_Z k * sz < x)%Q.
Proof.
  intros Hsz.
  assert (Hx : (x == (x / sz) * sz)%Q).
  { field. intros E. rewrite E in Hsz. inversion Hsz. }
  rewrite Hx at 2. symmetry. apply Qmult_lt_r. exact Hsz.
Qed.

(** *** The loop *)

Lemma for_loop_push {B : Type} (f : Z -> B) (fuel : nat) (i hi : Z) (acc : list B) :
  (Z.to_nat (hi + 1 - i) <= fuel)%nat ->
  for_loop fuel i hi (fun i acc => acc ++ [f i]) acc
  = acc ++ map f (seqZ i (hi + 1 - i)).
Proof.
  revert i acc. induction fuel as [| fuel IH]; intros i acc Hfuel; simpl.
  - rewrite seqZ_nil by lia. simpl. by rewrite app_nil_r.
  - destruct (Z.leb_spec i hi) as [Hle | Hgt].
    + rewrite IH by lia. rewrite (seqZ_cons i) by lia. simpl.
      rewrite <- app_assoc. simpl. repeat f_equal; lia.
    + rewrite seqZ_nil by lia. simpl. by rewrite app_nil_r.
Qed.

Lemma for_range_push {B : Type} (f : Z -> B) (lo hi : Z) :
  for_range lo hi (fun i acc => acc ++ [f i]) [] = map f (seqZ lo (hi + 1 - lo)).
Proof. unfold for_range. by rewrite for_loop_push. Qed.

(** More fuel than the number of iterations changes nothing: the loop ends by its test. *)
Lemma for_loop_fuel_enough {B : Type} (f : Z -> B) (fuel : nat) (i hi : Z) (acc : list B) :
  (Z.to_nat (hi + 1 - i) <= fuel)%nat ->
  for_loop fuel i hi (fun i acc => acc ++ [f i]) acc
  = for_loop (Z.to_nat (hi + 1 - i)) i hi (fun i acc => acc ++ [f i]) acc.
Proof. intros H. rewrite !for_loop_push; [done | lia | done]. Qed.

Lemma viewportReads_prepared (c : Instance) (height : number) :
  listHeight c = Some height ->
  viewportReads c
  = seqZ (startIndexRef c) (endIndex c height + 1 - startIndexRef c).
Proof.
  intros H. unfold viewportReads. rewrite H.
  rewrite (for_range_push (fun i => i)). apply map_id.
Qed.

Lemma viewportItems_reads (c : Instance) :
  viewportItemsRef c = map (js_index (items (props c))) (viewportReads c).
Proof.
  unfold viewportItemsRef, viewportReads. destruct (listHeight c); [| done].
  rewrite (for_range_push (fun i => i)), map_id. apply for_range_push.
Qed.

Lemma viewportItems_unprepared (c : Instance) :
  preparedRef c = false -> viewportItemsRef c = [].
Proof. unfold preparedRef, viewportItemsRef. by destruct (listHeight c). Qed.

Lemma startIndexRef_nonneg (c : Instance) : 0 <= startIndexRef c.
Proof. apply Z.le_max_r. Qed.

Lemma endIndex_le (c : Instance) (height : number) :
  endIndex c height <= items_length (props c) - 1.
Proof. apply Z.le_min_r. Qed.

Lemma js_index_is_Some {A : Type} (arr : list A) (i : Z) :
  0 <= i <= Z.of_nat (length arr) - 1 -> is_Some (js_index arr i).
Proof.
  intros [Hlo Hhi]. unfold js_index.
  destruct (Z.ltb_spec i 0); [lia |]. apply lookup_lt_is_Some. lia.
Qed.

(** ** The visible window *)

Lemma length_sample_items (n : nat) : length (sample_items n) = n.
Proof. unfold sample_items. by rewrite length_map, length_seq. Qed.

Lemma startIndexRef_le_iff (c : Instance) :
  0 < items_length (props c) ->
  (0 < itemSize (props c))%Q ->
  startIndexRef c <= items_length (props c) - 1
  <-> (scrollTop c
       < paddingTop (props c)
         + inject_Z (items_length (props c) + 1) * itemSize (props c))%Q.
Proof.
  intros Hn Hsz. unfold startIndexRef.
  set (x := (scrollTop c - paddingTop (props c))%Q).
  transitivity (Qfloor (x / itemSize (props c)) < items_length (props c) + 1);
    [lia |].
  rewrite Qfloor_lt_iff, Qdiv_lt_iff by done.
  subst x. split; intros H; lra.
Qed.

Lemma visible_rows_nonneg (c : Instance) (height : number) :
  (0 < itemSize (props c))%Q ->
  (0 <= height)%Q ->
  (scrollTop c
   < paddingTop (props c)
     + inject_Z (items_length (props c) + 1) * itemSize (props c))%Q ->
  0 <= Qceiling
         (Qmin height
            (itemSize (props c) * inject_Z (items_length (props c))
             + paddingTop (props c) - scrollTop c)
          / itemSize (props c)).
Proof.
  intros Hsz Hh Hs.
  assert (-1 < Qceiling
         (Qmin height
            (itemSize (props c) * inject_Z (items_length (props c))
             + paddingTop (props c) - scrollTop c)
          / itemSize (props c))); [| lia].
  apply Qceiling_gt_iff, Qdiv_gt_iff; [done |].
  rewrite inject_Z_plus in Hs.
  apply Q.min_glb_lt; change (inject_Z (-1)) with (-1)%Q;
    change (inject_Z 1) with 1%Q in Hs; lra.
Qed.

Lemma window_order_iff (c : Instance) (height : number) :
  0 < items_length (props c) ->
  (0 < itemSize (props c))%Q ->
  (0 <= height)%Q ->
  startIndexRef c <= endIndex c height
  <-> (scrollTop c
       < paddingTop (props c)
         + inject_Z (items_length (props c) + 1) * itemSize (props c))%Q.
Proof.
  intros Hn Hsz Hh. split.
  - intros Hle. apply startIndexRef_le_iff; [done.. |].
    pose proof (endIndex_le c height). lia.
  - intros Hs. pose proof (visible_rows_nonneg c height Hsz Hh Hs) as Hrows.
    apply startIndexRef_le_iff in Hs; [| done..].
    unfold endIndex. cbv zeta. lia.
Qed.

Lemma viewportItems_nil_of_gt (c : Instance) (height : number) :
  listHeight c = Some height ->
  endIndex c height < startIndexRef c ->
  viewportItemsRef c = [].
Proof.
  intros Hh Hlt. rewrite viewportItems_reads, (viewportReads_prepared c height Hh).
  by rewrite seqZ_nil by lia.
Qed.

Lemma viewportItems_no_items (c : Instance) :
  items (props c) = [] -> viewportItemsRef c = [].
Proof.
  intros Hnil. destruct (listHeight c) as [height |] eqn:Hh.
  - apply (viewportItems_nil_of_gt c height Hh).
    pose proof (endIndex_le c height) as Hend.
    pose proof (startIndexRef_nonneg c).
    unfold items_length in Hend. rewrite Hnil in Hend. simpl in Hend. lia.
  - unfold viewportItemsRef. by rewrite Hh.
Qed.

(** ** Claims on the geometry *)

(** C1 as stated fails: every hypothesis of the claim holds of
    [overscrolled], and yet its start index, 9, is above its end index, 0. *)
Lemma visible_window_order_counterexample :
  0 < items_length (props overscrolled)
  /\ (0 < itemSize (props overscrolled))%Q
  /\ (0 <= paddingTop (props overscrolled))%Q
  /\ (0 <= 100)%Q
  /\ listHeight overscrolled = Some 100%Q
  /\ (0 <= scrollTop overscrolled)%Q
  /\ startIndexRef overscrolled = 9
  /\ endIndex overscrolled 100 = 0
  /\ ~ (0 <= startIndexRef overscrolled <= endIndex overscrolled 100
        /\ endIndex overscrolled 100 <= items_length (props overscrolled) - 1).
Proof.
  repeat split; try reflexivity; try discriminate.
  vm_compute. intros [[_ H] _]. apply H. reflexivity.
Qed.

(** C3.  For a non-empty item sequence, every index at which the loop of
    [viewportItemsRef] reads [items] lies in [0 .. itemCount - 1], so every
    read yields an item, never [undefined]. *)
Theorem viewport_reads_in_range (c : Instance) :
  items (props c) <> [] ->
  (0 < itemSize (props c))%Q ->
  (0 <= paddingTop (props c))%Q ->
  (0 <= scrollTop c)%Q ->
  (forall i : Z,
      i ∈ viewportReads c ->
      0 <= i <= items_length (props c) - 1
      /\ is_Some (js_index (items (props c)) i))
  /\ Forall is_Some (viewportItemsRef c).
Proof.
  intros _ _ _ _.
  assert (Hreads : forall i : Z,
             i ∈ viewportReads c -> 0 <= i <= items_length (props c) - 1).
  { intros i Hi. destruct (listHeight c) as [height |] eqn:Hh.
    - rewrite (viewportReads_prepared c height Hh), elem_of_seqZ in Hi.
      pose proof (startIndexRef_nonneg c). pose proof (endIndex_le c height). lia.
    - unfold viewportReads in Hi. rewrite Hh in Hi. by apply elem_of_nil in Hi. }
  split.
  - intros i Hi. split; [by apply Hreads |]. apply js_index_is_Some, Hreads, Hi.
  - rewrite viewportItems_reads. apply list.Forall_forall. intros x Hx.
    apply list_elem_of_fmap in Hx as (i & -> & Hi).
    apply js_index_is_Some, Hreads, Hi.
Qed.

Lemma viewport_reads_in_range_witness :
  (0 <= 10 <= items_length (props (sample_instance 1000 30 0 (Some 100%Q) 305)) - 1
   /\ is_Some (js_index (items (props (sample_instance 1000 30 0 (Some 100%Q) 305))) 10))
  /\ Forall is_Some (viewportItemsRef (sample_instance 1000 30 0 (Some 100%Q) 305)).
Proof.
  pose proof (viewport_reads_in_range (sample_instance 1000 30 0 (Some 100%Q) 305))
    as [H1 H2]; [discriminate | reflexivity | discriminate | discriminate |].
  split; [| exact H2].
  apply H1. vm_compute. apply list_elem_of_further, list_elem_of_here.
Defined.

(** ** Claims on the scroll controller *)

Lemma log_element_scrollTo host (el : Element) (o : ScrollToOptions) (w : World) :
  log (element_scrollTo host el o w) = log w ++ [CallScrollTo o].
Proof. reflexivity. Qed.

Lemma listRef_element_scrollTo host (el : Element) (o : ScrollToOptions) (w : World) :
  listRef (inst (element_scrollTo host el o w)) = Some (host el o).
Proof. reflexivity. Qed.

(** *** The key index *)

Lemma keyIndex_from_None (l : list ItemData) (start : nat) (m : gmap Key nat)
    (k : Key) :
  forEach_from (fun item index map => <[key item := index]> map) start l m !! k = None
  <-> m !! k = None /\ forall item, item ∈ l -> key item <> k.
Proof.
  revert start m. induction l as [| a rest IH]; intros start m; simpl.
  - split; [intros H; split; [done | intros item Hin; by apply elem_of_nil in Hin]
           | by intros [H _]].
  - rewrite IH, lookup_insert_None. split.
    + intros [[Hm Ha] Hrest]. split; [done |].
      intros item Hin. apply elem_of_cons in Hin as [-> | Hin]; auto.
    + intros [Hm Hall]. split; [split; [done |] |].
      * apply Hall. left.
      * intros item Hin. apply Hall. by right.
Qed.

Lemma keyIndex_from_Some (l : list ItemData) (start : nat) (m : gmap Key nat)
    (k : Key) (i : nat) :
  forEach_from (fun item index map => <[key item := index]> map) start l m !! k = Some i ->
  m !! k = Some i
  \/ exists (j : nat) (item : ItemData),
       l !! j = Some item /\ key item = k /\ i = (start + j)%nat.
Proof.
  revert start m. induction l as [| a rest IH]; intros start m; simpl.
  - by left.
  - intros H. apply IH in H as [H | (j & item & Hj & Hk & ->)].
    + destruct (decide (key a = k)) as [E | NE].
      * rewrite E, lookup_insert_eq in H. injection H as <-.
        right. exists 0%nat, a. split; [done |]. split; [done | lia].
      * rewrite lookup_insert_ne in H by done. by left.
    + right. exists (S j), item. split; [done |]. split; [done | lia].
Qed.

(** A key the index maps to [i] is the key of the item at [i]. *)
Lemma keyIndexMap_lookup_Some (c : Instance) (k : Key) (i : nat) :
  keyIndexMapRef c !! k = Some i ->
  exists item : ItemData, items (props c) !! i = Some item /\ key item = k.
Proof.
  intros H. apply keyIndex_from_Some in H as [H | (j & item & Hj & Hk & ->)].
  - by rewrite lookup_empty in H.
  - by exists item.
Qed.

(** The index misses exactly the keys of no item. *)
Lemma keyIndexMap_lookup_None (c : Instance) (k : Key) :
  keyIndexMapRef c !! k = None
  <-> forall item, item ∈ items (props c) -> key item <> k.
Proof.
  unfold keyIndexMapRef, forEach. rewrite keyIndex_from_None, lookup_empty.
  split; [by intros [_ H] | by intros H].
Qed.

(** C6.  A [scrollTo] by key acts exactly as the [scrollTo] by the index the
    key index gives for that key, with the same [behavior] and [debounce];
    that index holds an item with this key.  For a key the index does not
    have, the call leaves the world as it is: no scroll command, the same
    scroll offset. *)
Theorem scrollTo_key host (w : World) (k : Key) (pos : option Position)
    (behavior : option ScrollBehavior) (debounce : option bool) :
  (forall i : nat,
      keyIndexMapRef (inst w) !! k = Some i ->
      scrollTo host
        {| left := None; top := None; index := None; okey := Some k;
           position := pos; behavior := behavior; debounce := debounce |} w
      = scrollTo host
          {| left := None; top := None; index := Some (inject_Z (Z.of_nat i));
             okey := None; position := pos; behavior := behavior;
             debounce := debounce |} w
      /\ exists item : ItemData,
           items (props (inst w)) !! i = Some item /\ key item = k)
  /\ (keyIndexMapRef (inst w) !! k = None ->
      scrollTo host
        {| left := None; top := None; index := None; okey := Some k;
           position := pos; behavior := behavior; debounce := debounce |} w
      = Ok w).
Proof.
  split.
  - intros i Hi. split; [| by apply keyIndexMap_lookup_Some].
    unfold scrollTo. simpl. by rewrite Hi.
  - intros Hnone. unfold scrollTo. simpl. by rewrite Hnone.
Qed.

Lemma scrollTo_key_witness :
  scrollTo instant_host
    {| left := None; top := None; index := None;
       okey := Some (KNum (Q2Qc 50)); position := None; behavior := None;
       debounce := None |} (sample_world 100 20 0 200 0)
  = scrollTo instant_host
      {| left := None; top := None; index := Some 50%Q; okey := None;
         position := None; behavior := None; debounce := None |}
      (sample_world 100 20 0 200 0)
  /\ scrollTo instant_host
       {| left := None; top := None; index := None;
          okey := Some (KStr "missing"); position := None; behavior := None;
          debounce := None |} (sample_world 100 20 0 200 0)
     = Ok (sample_world 100 20 0 200 0).
Proof.
  destruct (scrollTo_key instant_host (sample_world 100 20 0 200 0)
              (KNum (Q2Qc 50)) None None None) as [H _].
  destruct (scrollTo_key instant_host (sample_world 100 20 0 200 0)
              (KStr "missing") None None None) as [_ H'].
  split.
  - destruct (H 50%nat) as [E _]; [by vm_compute | exact E].
  - apply H'. by vm_compute.
Defined.

(** *** Precedence of the navigation options *)

Lemma scrollTo_honored host (o : VScrollToOptions) (w : World) :
  scrollTo host o w = scrollTo host (spec_honored o) w.
Proof.
  destruct o as [l t i k pos b d]. unfold scrollTo, spec_honored. simpl.
  destruct l, t, i, k; reflexivity.
Qed.

Lemma scrollToIndex_mounted host (i : number) (b : option ScrollBehavior)
    (d : bool) (w : World) :
  listRef (inst w) <> None ->
  exists w', scrollToIndex host i b d w = Ok w' /\ listRef (inst w') <> None.
Proof.
  intros Hm. unfold scrollToIndex.
  destruct (listRef (inst w)) as [el |] eqn:Hel; [| done].
  destruct d; simpl; repeat case_match; eexists; (split; [reflexivity |]);
    simpl; congruence.
Qed.

Lemma scrollToPosition_mounted host (l t : option number)
    (b : option ScrollBehavior) (w : World) :
  listRef (inst w) <> None ->
  exists w', scrollToPosition host l t b w = Ok w' /\ listRef (inst w') <> None.
Proof.
  intros Hm. unfold scrollToPosition.
  destruct (listRef (inst w)) as [el |] eqn:Hel; [| done].
  eexists. split; [reflexivity | done].
Qed.

Lemma scrollTo_mounted host (o : VScrollToOptions) (w : World) :
  listRef (inst w) <> None ->
  exists w', scrollTo host o w = Ok w' /\ listRef (inst w') <> None.
Proof.
  intros Hm. unfold scrollTo.
  destruct (bool_decide (left o <> None) || bool_decide (top o <> None));
    [by apply scrollToPosition_mounted |].
  destruct (index o); [by apply scrollToIndex_mounted |].
  destruct (okey o) as [k |].
  - destruct (keyIndexMapRef (inst w) !! k);
      [by apply scrollToIndex_mounted | by exists w].
  - destruct (position o) as [[|] |];
      [by apply scrollToPosition_mounted.. | by exists w].
Qed.

(** C7.  Of several navigation options in one [scrollTo] call only the first
    in the order pixel position ([left]/[top]), [index], [key], [position]
    counts: the call acts as the call with the others removed, so two calls
    that agree on that option (and on [behavior] and [debounce]) act alike
    whatever else they carry; and on a mounted list no combination of
    options makes the call fail. *)
Theorem scrollTo_precedence host (w : World) :
  listRef (inst w) <> None ->
  (forall o : VScrollToOptions,
      scrollTo host o w = scrollTo host (spec_honored o) w)
  /\ (forall o o' : VScrollToOptions,
         spec_honored o = spec_honored o' ->
         scrollTo host o w = scrollTo host o' w)
  /\ (forall o : VScrollToOptions, exists w', scrollTo host o w = Ok w')
  /\ (forall (o : VScrollToOptions),
         (left o <> None \/ top o <> None) ->
         scrollTo host o w = scrollToPosition host (left o) (top o) (behavior o) w)
  /\ (forall (o : VScrollToOptions) (i : number),
         left o = None -> top o = None -> index o = Some i ->
         scrollTo host o w = scrollToIndex host i (behavior o) (default true (debounce o)) w)
  /\ (forall (o : VScrollToOptions) (k : Key),
         left o = None -> top o = None -> index o = None -> okey o = Some k ->
         scrollTo host o w
         = match keyIndexMapRef (inst w) !! k with
           | Some toIndex =>
               scrollToIndex host (inject_Z (Z.of_nat toIndex)) (behavior o)
                 (default true (debounce o)) w
           | None => Ok w
           end).
Proof.
  intros Hm. repeat split.
  - intros o. apply scrollTo_honored.
  - intros o o' E. by rewrite (scrollTo_honored host o), (scrollTo_honored host o'), E.
  - intros o. destruct (scrollTo_mounted host o w Hm) as (w' & E & _). by exists w'.
  - intros o H. unfold scrollTo.
    destruct (left o), (top o); simpl; try reflexivity. by destruct H.
  - intros o i Hl Ht Hi. unfold scrollTo. by rewrite Hl, Ht, Hi.
  - intros o k Hl Ht Hi Hk. unfold scrollTo. by rewrite Hl, Ht, Hi, Hk.
Qed.

Lemma scrollTo_precedence_witness :
  exists w',
    scrollTo instant_host contradictory_options (sample_world 100 20 0 200 0) = Ok w'
    /\ log w'
       = [CallScrollTo {| st_left := Some 5%Q; st_top := None;
                          st_behavior := Some BehaviorSmooth |}].
Proof.
  destruct (scrollTo_precedence instant_host (sample_world 100 20 0 200 0))
    as (_ & _ & _ & H & _); [discriminate |].
  eexists. split.
  - rewrite (H contradictory_options); [reflexivity | left; discriminate].
  - reflexivity.
Defined.

(** ** Claims on rendering *)

(** C8.  With no items the visible window is empty and the list element's
    only child is what the [empty] slot gives, not the items block (which is
    what a non-empty sequence renders); and while no height has been
    reported the visible window is empty, whatever the other parameters. *)
Theorem empty_window_cases (c : Instance) (slots : Slots) :
  (items (props c) = [] ->
   viewportItemsRef c = []
   /\ render_content c slots = call_empty_slot slots
   /\ render c slots
      = VElem "VResizeObserver" [] NoStyle
          [VElem "div"
             ("v-vl" :: if showScrollbar (props c) then ["v-vl--show-scrollbar"] else [])
             NoStyle [call_empty_slot slots]])
  /\ (items (props c) <> [] ->
      render_content c slots
      = VElem "div" ["v-vl-items"] (StyleItems (itemsStyle c))
          [VElem "div" ["v-vl-visible-items"] (StyleTransform (visibleItemsStyle c))
             (renderList (viewportItemsRef c))])
  /\ (listHeight c = None ->
      viewportItemsRef c = [] /\ renderList (viewportItemsRef c) = []).
Proof.
  split; [| split].
  - intros Hnil. split; [by apply viewportItems_no_items |].
    assert (E : render_content c slots = call_empty_slot slots).
    { unfold render_content, items_length. by rewrite Hnil. }
    split; [exact E |]. unfold render. by rewrite E.
  - intros Hne. unfold render_content, items_length.
    destruct (items (props c)); [done | reflexivity].
  - intros Hh. unfold viewportItemsRef. by rewrite Hh.
Qed.

Lemma empty_window_cases_witness :
  (viewportItemsRef (sample_instance 0 30 0 (Some 100%Q) 0) = []
   /\ render_content (sample_instance 0 30 0 (Some 100%Q) 0)
        {| slot_empty := Some [VElem "span" ["placeholder"] NoStyle []] |}
      = VArray [VElem "span" ["placeholder"] NoStyle []])
  /\ viewportItemsRef (sample_instance 1000 30 0 None 305) = [].
Proof.
  destruct (empty_window_cases (sample_instance 0 30 0 (Some 100%Q) 0)
              {| slot_empty := Some [VElem "span" ["placeholder"] NoStyle []] |})
    as [H _].
  destruct (empty_window_cases (sample_instance 1000 30 0 None 305)
              {| slot_empty := None |}) as (_ & _ & H').
  split.
  - destruct (H eq_refl) as (H1 & H2 & _). split; [exact H1 | exact H2].
  - apply (H' eq_refl).
Defined.

(** ** Claims on the event handlers *)

Lemma rafFlag_handleListScroll (e : UIEvent) (w : World) :
  rafFlag (inst (handleListScroll e w)) = true.
Proof.
  unfold handleListScroll. destruct (rafFlag (inst w)) eqn:Hf; simpl;
    repeat case_match; simpl; done.
Qed.

Lemma frames_handleListScroll (e : UIEvent) (w : World) :
  frames (handleListScroll e w)
  = if rafFlag (inst w) then frames w else frames w ++ [CbSyncViewport].
Proof.
  unfold handleListScroll. destruct (rafFlag (inst w)); simpl;
    repeat case_match; reflexivity.
Qed.

Lemma handleListScroll_keeps (e : UIEvent) (w : World) :
  scrollTop (inst (handleListScroll e w)) = scrollTop (inst w)
  /\ listRef (inst (handleListScroll e w)) = listRef (inst w)
  /\ listHeight (inst (handleListScroll e w)) = listHeight (inst w)
  /\ props (inst (handleListScroll e w)) = props (inst w).
Proof.
  unfold handleListScroll. destruct (rafFlag (inst w)); simpl;
    repeat case_match; done.
Qed.

(** C9 (as amended).  A resize report sets [listHeight] before [onResize] is
    called, and the observer sees the instance as the handler leaves it.  A
    scroll event sets the guard flag and queues [syncViewport] before
    [onScroll] is called, but the component's scroll offset is not touched
    by the handler: [onScroll] sees the offset of before the event, and the
    offset is copied from the element only by the queued [syncViewport],
    which calls no observer. *)
Theorem observers_after_handler_updates :
  (forall (entry : ResizeObserverEntry) (w : World),
      onResize (props (inst w)) = true ->
      log (handleListResize entry w)
      = log w ++ [CallOnResize entry (inst (handleListResize entry w))]
      /\ listHeight (inst (handleListResize entry w))
         = Some (contentRect_height entry))
  /\ (forall (e : UIEvent) (w : World),
         onScroll (props (inst w)) = true ->
         log (handleListScroll e w)
         = log w
           ++ (if rafFlag (inst w) then [] else [CallNextFrame CbSyncViewport])
           ++ [CallOnScroll e (inst (handleListScroll e w))]
         /\ rafFlag (inst (handleListScroll e w)) = true
         /\ frames (handleListScroll e w)
            = (if rafFlag (inst w) then frames w else frames w ++ [CbSyncViewport])
         /\ scrollTop (inst (handleListScroll e w)) = scrollTop (inst w))
  /\ (forall (w w' : World) (el : Element),
         listRef (inst w) = Some el ->
         syncViewport w = Ok w' ->
         scrollTop (inst w') = el_scrollTop el /\ log w' = log w).
Proof.
  split; [| split].
  - intros entry w Hobs. unfold handleListResize. simpl. rewrite Hobs. done.
  - intros e w Hobs.
    split; [| split; [apply rafFlag_handleListScroll |
              split; [apply frames_handleListScroll |
                      apply handleListScroll_keeps]]].
    unfold handleListScroll. destruct (rafFlag (inst w)); simpl; rewrite Hobs; simpl.
    + done.
    + by rewrite <- app_assoc.
  - intros w w' el Hel Hsync. unfold syncViewport in Hsync. rewrite Hel in Hsync.
    injection Hsync as <-. done.
Qed.

Lemma observers_after_handler_updates_witness :
  log (handleListResize (mkEntry 200) (sample_world 100 20 0 200 0))
  = [CallOnResize (mkEntry 200)
       (inst (handleListResize (mkEntry 200) (sample_world 100 20 0 200 0)))]
  /\ scrollTop (inst after_scroll_event) = 0%Q
  /\ (exists w', syncViewport after_scroll_event = Ok w'
                 /\ scrollTop (inst w') = 100%Q).
Proof.
  destruct observers_after_handler_updates as (Hresize & Hscroll & Hsync).
  split; [| split].
  - destruct (Hresize (mkEntry 200) (sample_world 100 20 0 200 0)) as [E _];
      [reflexivity | exact E].
  - destruct (Hscroll (mkUIEvent 1) (element_scrolled 100 (sample_world 100 20 0 200 0)))
      as (_ & _ & _ & E); [reflexivity | exact E].
  - pose proof (Hsync after_scroll_event _
                  {| el_scrollTop := 100; el_offsetHeight := 200 |}
                  eq_refl eq_refl) as [E _].
    eexists. split; [reflexivity | exact E].
Defined.

(** C9 as stated fails for scroll events: when [onScroll] is called the
    component still holds offset 0 while the element is at 100; the update
    is only queued, and runs at the next frame without the observer being
    called again. *)
Lemma onScroll_sees_stale_offset_counterexample :
  exists seen : Instance,
    log after_scroll_event
    = [CallNextFrame CbSyncViewport; CallOnScroll (mkUIEvent 1) seen]
    /\ scrollTop seen = 0%Q
    /\ listRef seen = Some {| el_scrollTop := 100; el_offsetHeight := 200 |}
    /\ ~ offset_synced seen
    /\ frames after_scroll_event = [CbSyncViewport]
    /\ exists w', run_frame after_scroll_event = Ok w'
                  /\ scrollTop (inst w') = 100%Q
                  /\ offset_synced (inst w')
                  /\ log w' = log after_scroll_event.
Proof.
  eexists. split; [reflexivity |]. split; [reflexivity |]. split; [reflexivity |].
  split; [intros H; vm_compute in H; discriminate |].
  split; [reflexivity |].
  eexists. split; [reflexivity |]. split; [reflexivity |].
  split; [vm_compute; reflexivity | reflexivity].
Qed.

(** *** Frame coalescing *)

Lemma scrollToIndex_keeps host (i : number) (b : option ScrollBehavior)
    (d : bool) (w w' : World) :
  scrollToIndex host i b d w = Ok w' ->
  frames w' = frames w /\ rafFlag (inst w') = rafFlag (inst w).
Proof.
  unfold scrollToIndex. destruct (listRef (inst w)) as [el |]; destruct d; simpl;
    repeat case_match; intros Hok; try discriminate; injection Hok as <-; done.
Qed.

Lemma scrollToPosition_keeps host (l t : option number)
    (b : option ScrollBehavior) (w w' : World) :
  scrollToPosition host l t b w = Ok w' ->
  frames w' = frames w /\ rafFlag (inst w') = rafFlag (inst w).
Proof.
  unfold scrollToPosition. destruct (listRef (inst w)) as [el |];
    intros H; try discriminate; injection H as <-; done.
Qed.

Lemma scrollTo_keeps host (o : VScrollToOptions) (w w' : World) :
  scrollTo host o w = Ok w' ->
  frames w' = frames w /\ rafFlag (inst w') = rafFlag (inst w).
Proof.
  unfold scrollTo.
  destruct (bool_decide (left o <> None) || bool_decide (top o <> None));
    [apply scrollToPosition_keeps |].
  destruct (index o); [apply scrollToIndex_keeps |].
  destruct (okey o) as [k |].
  - destruct (keyIndexMapRef (inst w) !! k); [apply scrollToIndex_keeps |].
    by intros [= <-].
  - destruct (position o) as [[|] |]; [apply scrollToPosition_keeps.. |].
    by intros [= <-].
Qed.

Lemma frame_invariant_scrollTo host (o : VScrollToOptions) (w w' : World) :
  frame_invariant w -> scrollTo host o w = Ok w' -> frame_invariant w'.
Proof.
  intros [Hq Hm] H. destruct (scrollTo_mounted host o w Hm) as (w'' & E & Hm').
  rewrite E in H. injection H as <-.
  apply scrollTo_keeps in E as [Ef Er]. split; [by rewrite Ef, Er | done].
Qed.

Lemma frame_invariant_mounted host (p : Props) (el : Element) (w : World) :
  onMounted host (setup p el) = Ok w -> frame_invariant w.
Proof.
  assert (H0 : frame_invariant (setup p el)) by (split; done).
  unfold onMounted. repeat case_match.
  - by apply frame_invariant_scrollTo.
  - by apply frame_invariant_scrollTo.
  - by intros [= <-].
Qed.

Lemma run_frame_invariant (w : World) :
  frame_invariant w ->
  exists w', run_frame w = Ok w'
             /\ rafFlag (inst w') = false
             /\ frames w' = []
             /\ listRef (inst w') = listRef (inst w)
             /\ log w' = log w.
Proof.
  intros [Hq Hm]. unfold run_frame. rewrite Hq.
  destruct (rafFlag (inst w)) eqn:Hf; simpl.
  - unfold syncViewport. simpl.
    destruct (listRef (inst w)) as [el |] eqn:Hel; [| done].
    eexists. split; [reflexivity |]. simpl. by rewrite Hel.
  - eexists. split; [reflexivity |]. simpl. by rewrite Hf.
Qed.

Lemma frame_invariant_step host (w w' : World) :
  frame_invariant w -> step host w w' -> frame_invariant w'.
Proof.
  intros Hinv Hstep. destruct Hstep as [newTop e w | entry w | w w' Hrun | o w w' Hs | p w].
  - destruct Hinv as [Hq Hm]. split.
    + rewrite frames_handleListScroll, rafFlag_handleListScroll.
      unfold element_scrolled.
      destruct (listRef (inst w)); simpl; rewrite Hq; by destruct (rafFlag (inst w)).
    + destruct (handleListScroll_keeps e (element_scrolled newTop w)) as (_ & -> & _).
      unfold element_scrolled. destruct (listRef (inst w)); done.
  - destruct Hinv as [Hq Hm]. unfold handleListResize. simpl.
    destruct (onResize (props (inst w))); split; done.
  - destruct (run_frame_invariant w Hinv) as (w'' & E & Hf & Hq & Hl & _).
    rewrite E in Hrun. injection Hrun as <-.
    split; [by rewrite Hf, Hq | rewrite Hl; apply Hinv].
  - by apply (frame_invariant_scrollTo host o w).
  - exact Hinv.
Qed.

Lemma reachable_frame_invariant host (w : World) :
  reachable host w -> frame_invariant w.
Proof.
  induction 1 as [p el w Hmount | w w' _ IH Hstep].
  - by apply (frame_invariant_mounted host p el).
  - by apply (frame_invariant_step host w w').
Qed.

(** C10.  In every world a mounted component can reach, whatever scroll
    events have arrived, at most one [syncViewport] waits for the next frame,
    and one waits exactly when [rafFlag] is set.  [handleListScroll] queues
    [syncViewport] only when the flag is clear, and sets it; the queued
    [syncViewport] runs at the next frame and clears the flag; and no other
    turn of the event loop clears it. *)
Theorem single_pending_frame host (w : World) :
  reachable host w ->
  (length (frames w) <= 1)%nat
  /\ frames w = (if rafFlag (inst w) then [CbSyncViewport] else [])
  /\ (forall e : UIEvent,
         frames (handleListScroll e w)
         = (if rafFlag (inst w) then frames w else frames w ++ [CbSyncViewport])
         /\ rafFlag (inst (handleListScroll e w)) = true
         /\ frames (handleListScroll e w) = [CbSyncViewport])
  /\ (exists w', run_frame w = Ok w'
                 /\ rafFlag (inst w') = false
                 /\ frames w' = [])
  /\ (forall w' : World,
         step host w w' ->
         rafFlag (inst w) = true ->
         rafFlag (inst w') = false ->
         run_frame w = Ok w').
Proof.
  intros Hreach. pose proof (reachable_frame_invariant host w Hreach) as Hinv.
  destruct Hinv as [Hq Hm].
  split; [rewrite Hq; destruct (rafFlag (inst w)); simpl; lia |].
  split; [exact Hq |].
  split; [| split].
  - intros e. split; [apply frames_handleListScroll |].
    split; [apply rafFlag_handleListScroll |].
    rewrite frames_handleListScroll, Hq. by destruct (rafFlag (inst w)).
  - destruct (run_frame_invariant w (conj Hq Hm)) as (w' & E & Hf & Hq' & _).
    by exists w'.
  - intros w' Hstep Hset Hclear.
    destruct Hstep as [newTop e w | entry w | w w' Hrun | o w w' Hs | p w].
    + by rewrite rafFlag_handleListScroll in Hclear.
    + unfold handleListResize in Hclear. simpl in Hclear.
      destruct (onResize (props (inst w))); simpl in Hclear; congruence.
    + exact Hrun.
    + apply scrollTo_keeps in Hs as [_ Hr]. congruence.
    + simpl in Hclear. congruence.
Qed.

Lemma two_scroll_events_reachable : reachable instant_host two_scroll_events.
Proof.
  unfold two_scroll_events.
  eapply reachable_step; [| apply step_scroll].
  eapply reachable_step; [| apply step_scroll].
  apply (reachable_mounted instant_host (sample_props 100 20 0)
           {| el_scrollTop := 0; el_offsetHeight := 200 |}).
  reflexivity.
Defined.

Lemma single_pending_frame_witness :
  (length (frames two_scroll_events) <= 1)%nat
  /\ frames two_scroll_events = [CbSyncViewport]
  /\ exists w', run_frame two_scroll_events = Ok w'
                /\ rafFlag (inst w') = false
                /\ frames w' = [].
Proof.
  destruct (single_pending_frame instant_host two_scroll_events
              two_scroll_events_reachable) as (H1 & H2 & _ & H4 & _).
  split; [exact H1 |]. split; [exact H2 | exact H4].
Defined.

(** * Properties of the binary64 model *)

(** ** Comparison of binary64 numbers *)

Lemma SFcompare_antisym (x y : spec_float) (c : comparison) :
  SFcompare x y = Some c -> SFcompare y x = Some (CompOpp c).
Proof.
  destruct x as [sx | sx | | sx mx ex], y as [sy | sy | | sy my ey]; simpl;
    try discriminate; try (intros [= <-]; by repeat case_match).
  intros [= <-]. f_equal.
  destruct sx, sy; try reflexivity.
  - rewrite (Z.compare_antisym ex ey).
    destruct (ex ?= ey); simpl; try reflexivity.
    by rewrite (Pos.compare_cont_antisym mx my Eq).
  - rewrite (Z.compare_antisym ex ey).
    destruct (ex ?= ey); simpl; try reflexivity.
    by rewrite (Pos.compare_cont_antisym mx my Eq).
Qed.

Lemma SFcompare_None (x y : spec_float) :
  SFcompare x y = None <-> x = S754_nan \/ y = S754_nan.
Proof.
  destruct x as [sx | sx | | sx mx ex], y as [sy | sy | | sy my ey]; simpl;
    split; try discriminate; try tauto; try (intros [H | H]; discriminate);
    by repeat case_match.
Qed.

Lemma SFcompare_refl (x : spec_float) :
  x <> S754_nan -> SFcompare x x = Some Eq.
Proof.
  destruct x as [sx | sx | | sx mx ex]; simpl; try done.
  - by destruct sx.
  - intros _. f_equal. rewrite Z.compare_refl.
    destruct sx; by rewrite Pos.compare_cont_refl.
Qed.

Lemma le_gt_false (a b : B64.b64) : B64.le a b = true -> B64.gt a b = false.
Proof.
  unfold B64.le, B64.gt, SFleb, SFltb.
  destruct (SFcompare a b) as [c |] eqn:E; [| done].
  rewrite (SFcompare_antisym a b c E). by destruct c.
Qed.

Lemma gt_le_false (a b : B64.b64) : B64.gt a b = true -> B64.le a b = false.
Proof.
  intros H. destruct (B64.le a b) eqn:E; [| done].
  apply le_gt_false in E. congruence.
Qed.

(** Neither [a <= b] nor [a > b]: one of the two is [NaN]. *)
Lemma unordered_is_nan (a b : B64.b64) :
  B64.le a b = false -> B64.gt a b = false -> a = S754_nan \/ b = S754_nan.
Proof.
  unfold B64.le, B64.gt, SFleb, SFltb. intros Hle Hgt.
  apply SFcompare_None.
  destruct (SFcompare a b) as [c |] eqn:E; [| done].
  rewrite (SFcompare_antisym a b c E) in Hgt. by destruct c.
Qed.

Lemma Math_max_not_below (a b : B64.b64) : B64.lt (B64.Math_max a b) b = false.
Proof.
  unfold B64.lt, B64.Math_max, SFltb.
  destruct (SFcompare a b) as [[| |] |] eqn:E.
  - assert (Hb : SFcompare b b = Some Eq).
    { apply SFcompare_refl. intros ->.
      assert (SFcompare a S754_nan = None) by (apply SFcompare_None; by right).
      congruence. }
    destruct a as [[|] | | |]; by rewrite ?E, ?Hb.
  - assert (Hb : SFcompare b b = Some Eq).
    { apply SFcompare_refl. intros ->.
      assert (SFcompare a S754_nan = None) by (apply SFcompare_None; by right).
      congruence. }
    by rewrite Hb.
  - by rewrite E.
  - destruct b; reflexivity.
Qed.

Lemma Math_min_not_above (a b : B64.b64) : B64.lt b (B64.Math_min a b) = false.
Proof.
  unfold B64.lt, B64.Math_min, SFltb.
  assert (Hb : SFcompare a b <> None -> SFcompare b b = Some Eq).
  { intros Hn. apply SFcompare_refl. intros ->. apply Hn.
    apply SFcompare_None. by right. }
  destruct (SFcompare a b) as [[| |] |] eqn:E.
  - destruct a as [[|] | | |];
      rewrite ?(SFcompare_antisym _ _ _ E), ?Hb; done.
  - by rewrite (SFcompare_antisym _ _ _ E).
  - by rewrite Hb.
  - destruct b; reflexivity.
Qed.

(** ** The loop *)

Lemma for_loop_more_fuel {A : Type} (fuel fuel' : nat) (i hi : B64.b64)
    (body : B64.b64 -> A -> A) (acc r : A) :
  B64.for_loop fuel i hi body acc = Some r ->
  (fuel <= fuel')%nat ->
  B64.for_loop fuel' i hi body acc = Some r.
Proof.
  revert fuel' i acc. induction fuel as [| fuel IH]; intros fuel' i acc H Hle.
  - simpl in H. destruct fuel'; simpl; destruct (B64.le i hi); done.
  - destruct fuel' as [| fuel']; [lia |]. simpl in *.
    destruct (B64.le i hi); [| done]. apply IH; [done | lia].
Qed.

Lemma for_loop_not_entered {A : Type} (fuel : nat) (i hi : B64.b64)
    (body : B64.b64 -> A -> A) (acc : A) :
  B64.le i hi = false -> B64.for_loop fuel i hi body acc = Some acc.
Proof. intros H. destruct fuel; simpl; by rewrite H. Qed.

(** ** Rounding to an integer *)

Lemma Math_floor_spec (x : B64.b64) (v : Q) :
  B64.value x = Some v ->
  exists k : Z,
    (inject_Z k <= v < inject_Z k + 1)%Q
    /\ (B64.Math_floor x = B64.of_Z k
        \/ (B64.Math_floor x = x /\ (v == inject_Z k)%Q)).
Proof.
  destruct x as [s | s | | s m e]; simpl; try discriminate.
  - intros [= <-]. exists 0. split; [split; reflexivity || done |].
    right. done.
  - destruct (Z.leb_spec 0 e) as [He | He]; intros [= <-].
    + exists (cond_Zopp s (Z.pos m) * 2 ^ e). split.
      * split; [apply Qle_refl | lra].
      * right. done.
    + exists (cond_Zopp s (Z.pos m) / 2 ^ (- e)). split; [| by left].
      rewrite Zdiv_Qdiv. split.
      * apply Qfloor_le.
      * pose proof (Qlt_floor
          (inject_Z (cond_Zopp s (Z.pos m)) / inject_Z (2 ^ (- e)))) as H.
        rewrite inject_Z_plus in H. exact H.
Qed.

(** ** Claims on the geometry, in binary64 *)

Lemma value_SFopp (x : B64.b64) (v : Q) :
  B64.value x = Some v -> exists v', B64.value (SFopp x) = Some v' /\ (v' == - v)%Q.
Proof.
  destruct x as [s | s | | s m e]; simpl; try discriminate.
  - intros [= <-]. exists 0%Q. done.
  - intros [= <-]. eexists. split; [reflexivity |].
    assert (E : cond_Zopp (negb s) (Z.pos m) = - cond_Zopp s (Z.pos m))
      by (by destruct s).
    rewrite E. destruct (0 <=? e).
    + rewrite Z.mul_opp_l, inject_Z_opp. reflexivity.
    + rewrite inject_Z_opp. unfold Qdiv. ring.
Qed.

Lemma Math_ceil_spec (x : B64.b64) (v : Q) :
  B64.value x = Some v ->
  exists k : Z,
    (inject_Z k - 1 < v <= inject_Z k)%Q
    /\ (B64.Math_ceil x = SFopp (B64.of_Z (- k))
        \/ (B64.Math_ceil x = x /\ (v == inject_Z k)%Q)).
Proof.
  intros Hv. destruct (value_SFopp x v Hv) as (v' & Hv' & E).
  destruct (Math_floor_spec (SFopp x) v' Hv') as (k & [Hlo Hhi] & Hfl).
  exists (- k). rewrite inject_Z_opp. split; [split; lra |].
  unfold B64.Math_ceil. destruct Hfl as [-> | [-> Hk]].
  - left. by rewrite Z.opp_involutive.
  - right. split; [by destruct x as [[|] | [|] | | [|] ? ?] | lra].
Qed.

(** C5.  The start index is [max(floor((scrollOffset - paddingTop) /
    itemSize) - 1, 0)] with the subtractions and the division rounded to
    binary64, the floor being the integer [k <= q < k + 1] for the rounded
    quotient [q]; it is never below 0; and the visible block is translated
    by [startIndex * itemSize] pixels. *)
Theorem startIndex_formula (c : B64.Instance) :
  B64.le B64.zero (B64.scrollTop c) = true ->
  B64.le B64.zero (B64.paddingTop (B64.props c)) = true ->
  B64.lt B64.zero (B64.itemSize (B64.props c)) = true ->
  let q := B64.div (B64.sub (B64.scrollTop c) (B64.paddingTop (B64.props c)))
                   (B64.itemSize (B64.props c)) in
  B64.startIndexRef c
  = spec64_startIndex (B64.scrollTop c) (B64.paddingTop (B64.props c))
      (B64.itemSize (B64.props c))
  /\ B64.lt (B64.startIndexRef c) B64.zero = false
  /\ (forall v : Q,
         B64.value q = Some v ->
         exists k : Z,
           (inject_Z k <= v < inject_Z k + 1)%Q
           /\ (B64.startIndexRef c
               = B64.Math_max (B64.sub (B64.of_Z k) B64.one) B64.zero
               \/ (B64.startIndexRef c
                   = B64.Math_max (B64.sub q B64.one) B64.zero
                   /\ (v == inject_Z k)%Q)))
  /\ B64.visibleItemsStyle_translateY c
     = B64.mul (B64.startIndexRef c) (B64.itemSize (B64.props c)).
Proof.
  intros _ _ _ q. split; [reflexivity |]. split; [apply Math_max_not_below |].
  split; [| reflexivity].
  intros v Hv. destruct (Math_floor_spec q v Hv) as (k & Hk & Hfl).
  exists k. split; [exact Hk |]. unfold B64.startIndexRef. fold q.
  destruct Hfl as [-> | [-> Hint]]; [by left | by right].
Qed.

Lemma startIndex_formula_witness :
  B64.startIndexRef
    (sample64_instance 1000 (B64.of_Z 30) B64.zero (B64.of_Z 100) (B64.of_Z 305))
  = B64.of_Z 9
  /\ B64.visibleItemsStyle_translateY
       (sample64_instance 1000 (B64.of_Z 30) B64.zero (B64.of_Z 100) (B64.of_Z 305))
     = B64.of_Z 270
  /\ B64.startIndexRef
       (sample64_instance 1000 (B64.dec 1 10) B64.zero (B64.of_Z 100) (B64.of_Z 1))
     = B64.of_Z 9.
Proof.
  destruct (startIndex_formula
              (sample64_instance 1000 (B64.of_Z 30) B64.zero (B64.of_Z 100)
                 (B64.of_Z 305)))
    as (E & _ & _ & T); [reflexivity.. |].
  destruct (startIndex_formula
              (sample64_instance 1000 (B64.dec 1 10) B64.zero (B64.of_Z 100)
                 (B64.of_Z 1)))
    as (E' & _); [reflexivity.. |].
  split; [rewrite E; by vm_compute |].
  split; [rewrite T; by vm_compute | rewrite E'; by vm_compute].
Defined.

(** C4.  With the viewport height known, the end index is
    [min(startIndex + ceil(min(viewportHeight, itemSize * itemCount +
    paddingTop - scrollOffset) / itemSize) + 1, itemCount - 1)], every
    operation rounded to binary64 and the ceiling being the integer
    [k - 1 < q <= k] for the rounded quotient [q]; it is never above
    [itemCount - 1].  For [itemSize = 30], [paddingTop = 0],
    [viewportHeight = 100], [itemCount = 1000] and [scrollOffset = 305] the
    window is [9 .. 14]. *)
Theorem endIndex_formula :
  (forall (c : B64.Instance) (height : B64.b64),
      B64.listHeight c = Some height ->
      let p := B64.props c in
      let q := B64.div
                 (B64.Math_min height
                    (B64.sub (B64.add (B64.mul (B64.itemSize p) (B64.items_length p))
                                      (B64.paddingTop p))
                             (B64.scrollTop c)))
                 (B64.itemSize p) in
      B64.endIndex c height
      = spec64_endIndex (B64.startIndexRef c) height (B64.itemSize p)
          (B64.items_length p) (B64.paddingTop p) (B64.scrollTop c)
      /\ B64.lt (B64.sub (B64.items_length p) B64.one) (B64.endIndex c height) = false
      /\ (forall v : Q,
             B64.value q = Some v ->
             exists k : Z,
               (inject_Z k - 1 < v <= inject_Z k)%Q
               /\ (B64.Math_ceil q = SFopp (B64.of_Z (- k))
                   \/ (B64.Math_ceil q = q /\ (v == inject_Z k)%Q))))
  /\ (let c := sample64_instance 1000 (B64.of_Z 30) B64.zero (B64.of_Z 100)
                 (B64.of_Z 305) in
      B64.items_length (B64.props c) = B64.of_Z 1000
      /\ B64.startIndexRef c = B64.of_Z 9
      /\ B64.endIndex c (B64.of_Z 100) = B64.of_Z 14
      /\ forall fuel : nat,
           (6 <= fuel)%nat ->
           B64.viewportReads fuel c
           = Some [B64.of_Z 9; B64.of_Z 10; B64.of_Z 11; B64.of_Z 12;
                   B64.of_Z 13; B64.of_Z 14]
           /\ B64.viewportItemsRef fuel c
              = Some (Some <$> take 6 (drop 9 (sample_items 1000)))).
Proof.
  split.
  - intros c height Hh p q. split; [reflexivity |].
    split; [apply Math_min_not_above |].
    intros v Hv. by apply Math_ceil_spec.
  - cbv zeta. split; [by vm_compute |]. split; [by vm_compute |].
    split; [by vm_compute |].
    intros fuel Hfuel. split.
    + unfold B64.viewportReads. cbn [B64.listHeight sample64_instance].
      apply (for_loop_more_fuel 6 fuel); [by vm_compute | done].
    + unfold B64.viewportItemsRef. cbn [B64.listHeight sample64_instance].
      apply (for_loop_more_fuel 6 fuel); [by vm_compute | done].
Qed.

Lemma endIndex_formula_witness :
  B64.endIndex
    (sample64_instance 1000 (B64.of_Z 30) B64.zero (B64.of_Z 100) (B64.of_Z 305))
    (B64.of_Z 100)
  = B64.of_Z 14
  /\ B64.endIndex
       (sample64_instance 1000 (B64.dec 7 10) B64.zero (B64.of_Z 7) B64.zero)
       (B64.of_Z 7)
     = B64.of_Z 11.
Proof.
  destruct endIndex_formula as [H _].
  destruct (H (sample64_instance 1000 (B64.of_Z 30) B64.zero (B64.of_Z 100)
                 (B64.of_Z 305)) (B64.of_Z 100) eq_refl) as (E & _).
  destruct (H (sample64_instance 1000 (B64.dec 7 10) B64.zero (B64.of_Z 7)
                 B64.zero) (B64.of_Z 7) eq_refl) as (E' & _).
  split; [rewrite E; by vm_compute | rewrite E'; by vm_compute].
Defined.

(** On small integer sizes and offsets the binary64 code and the exact
    definitions compute the same start and end index. *)
Lemma models_agree_on_small_integers : same_window_on_grid = true.
Proof. by vm_compute. Qed.

(** The two models part on fractions: with rows of 0.1 and the list scrolled
    to 1, [1 / 0.1] rounds to 10 in binary64 and the start index is 9, while
    the exact quotient is just below 10 and the exact start index is 8. *)
Lemma rounding_moves_the_start_index :
  B64.startIndexRef
    (sample64_instance 1000 (B64.dec 1 10) B64.zero (B64.of_Z 100) (B64.of_Z 1))
  = B64.of_Z 9
  /\ exists tenth : Q,
       B64.value (B64.dec 1 10) = Some tenth
       /\ startIndexRef (sample_instance 1000 tenth 0 (Some 100%Q) 1) = 8.
Proof.
  split; [by vm_compute |]. eexists. split; [reflexivity | by vm_compute].
Qed.

(** ** Claims on the scroll controller, in binary64 *)

(** C2.  Debounced scroll-to-index, with [targetTop = index * itemSize +
    paddingTop] computed in binary64 and the scroll offset and height read
    from the list element: (a) when [targetTop <= scrollTop] the element is
    scrolled to exactly [targetTop]; (b) when [targetTop > scrollTop] and
    [targetTop + itemSize <= scrollTop + offsetHeight] no scroll command is
    issued; (c) in every other case the element is scrolled to exactly
    [targetTop + itemSize - offsetHeight]. *)
Theorem scrollToIndex_debounced host (w : B64.World) (el : B64.Element)
    (index : B64.b64) (behavior : option ScrollBehavior) :
  B64.listRef (B64.inst w) = Some el ->
  B64.lt B64.zero (B64.itemSize (B64.props (B64.inst w))) = true ->
  B64.le B64.zero (B64.paddingTop (B64.props (B64.inst w))) = true ->
  B64.el_scrollTop el <> S754_nan ->
  let p := B64.props (B64.inst w) in
  let targetTop := B64.add (B64.mul index (B64.itemSize p)) (B64.paddingTop p) in
  let in_view :=
    B64.gt targetTop (B64.el_scrollTop el)
    && B64.le (B64.add targetTop (B64.itemSize p))
              (B64.add (B64.el_scrollTop el) (B64.el_offsetHeight el)) in
  (B64.le targetTop (B64.el_scrollTop el) = true ->
   B64.scrollToIndex host index behavior true w
   = Ok (B64.element_scrollTo host el (scroll_command64 targetTop behavior) w))
  /\ (in_view = true ->
      B64.scrollToIndex host index behavior true w = Ok w)
  /\ (B64.le targetTop (B64.el_scrollTop el) = false ->
      in_view = false ->
      B64.scrollToIndex host index behavior true w
      = Ok (B64.element_scrollTo host el
              (scroll_command64
                 (B64.sub (B64.add targetTop (B64.itemSize p))
                          (B64.el_offsetHeight el))
                 behavior)
              w))
  /\ (forall o : B64.ScrollToOptions,
         B64.log (B64.element_scrollTo host el o w) = B64.log w ++ [o]).
Proof.
  intros Hel _ _ Hnan p targetTop in_view.
  unfold B64.scrollToIndex. rewrite Hel. simpl. fold p. fold targetTop.
  split; [| split; [| split]].
  - intros Hle. by rewrite (le_gt_false _ _ Hle).
  - subst in_view. intros Hin. apply andb_true_iff in Hin as [Hgt Hle].
    by rewrite Hgt, Hle.
  - subst in_view. intros Hle Hout.
    destruct (B64.gt targetTop (B64.el_scrollTop el)) eqn:Hgt.
    + simpl in Hout. by rewrite Hout.
    + destruct (unordered_is_nan _ _ Hle Hgt) as [E | E]; [| done].
      by rewrite E.
  - reflexivity.
Qed.

Lemma scrollToIndex_debounced_witness :
  (* below the viewport: index 50, rows of 20, offset 0, height 200 *)
  (exists w',
      B64.scrollToIndex instant_host64 (B64.of_Z 50) None true
        (sample64_world 100 (B64.of_Z 20) B64.zero (B64.of_Z 200) B64.zero)
      = Ok w'
      /\ B64.log w' = [scroll_command64 (B64.of_Z 820) None])
  (* inside the viewport: index 5 *)
  /\ B64.scrollToIndex instant_host64 (B64.of_Z 5) None true
       (sample64_world 100 (B64.of_Z 20) B64.zero (B64.of_Z 200) B64.zero)
     = Ok (sample64_world 100 (B64.of_Z 20) B64.zero (B64.of_Z 200) B64.zero)
  (* index 5, rows of 28.8, element at 144: 5 * 28.8 rounds to 144 *)
  /\ (exists w',
         B64.scrollToIndex instant_host64 (B64.of_Z 5) None true
           (sample64_world 100 (B64.dec 288 10) B64.zero (B64.of_Z 200)
              (B64.of_Z 144))
         = Ok w'
         /\ B64.log w' = [scroll_command64 (B64.of_Z 144) None]).
Proof.
  split; [| split].
  - destruct (scrollToIndex_debounced instant_host64
                (sample64_world 100 (B64.of_Z 20) B64.zero (B64.of_Z 200) B64.zero)
                {| B64.el_scrollTop := B64.zero; B64.el_offsetHeight := B64.of_Z 200 |}
                (B64.of_Z 50) None)
      as (_ & _ & H & _); [reflexivity | reflexivity | reflexivity | discriminate |].
    eexists. split; [apply H; reflexivity | by vm_compute].
  - destruct (scrollToIndex_debounced instant_host64
                (sample64_world 100 (B64.of_Z 20) B64.zero (B64.of_Z 200) B64.zero)
                {| B64.el_scrollTop := B64.zero; B64.el_offsetHeight := B64.of_Z 200 |}
                (B64.of_Z 5) None)
      as (_ & H & _); [reflexivity | reflexivity | reflexivity | discriminate |].
    apply H. reflexivity.
  - destruct (scrollToIndex_debounced instant_host64
                (sample64_world 100 (B64.dec 288 10) B64.zero (B64.of_Z 200)
                   (B64.of_Z 144))
                {| B64.el_scrollTop := B64.of_Z 144;
                   B64.el_offsetHeight := B64.of_Z 200 |}
                (B64.of_Z 5) None)
      as (H & _); [reflexivity | reflexivity | reflexivity | discriminate |].
    eexists. split; [apply H; reflexivity | by vm_compute].
Defined.

(** ** The window, in binary64 *)

Lemma Math_max_zero_not_negative (a : B64.b64) :
  not_negative (B64.Math_max a B64.zero).
Proof.
  destruct a as [[|] | [|] | | [|] m e]; by vm_compute.
Qed.

Lemma Math_min_negative (a b : B64.b64) :
  negative_or_nan b -> negative_or_nan (B64.Math_min a b).
Proof.
  unfold B64.Math_min.
  destruct a as [sa | sa | | sa ma ea], b as [sb | sb | | sb mb eb];
    simpl; try done; intros ->; try (by destruct sa).
  destruct sa; [| done]. by repeat case_match.
Qed.

Lemma le_not_negative_negative (x y : B64.b64) :
  not_negative x -> negative_or_nan y -> B64.le x y = false.
Proof.
  destruct x as [sx | sx | | sx mx ex], y as [sy | sy | | sy my ey];
    simpl; try done; intros Hx Hy; subst; try done; by destruct sx.
Qed.

Lemma viewportItems64_not_entered (fuel : nat) (c : B64.Instance) (height : B64.b64) :
  B64.listHeight c = Some height ->
  B64.le (B64.startIndexRef c) (B64.endIndex c height) = false ->
  B64.viewportItemsRef fuel c = Some [].
Proof.
  intros Hh Hle. unfold B64.viewportItemsRef. rewrite Hh.
  by apply for_loop_not_entered.
Qed.

Lemma viewportItems64_no_items (fuel : nat) (c : B64.Instance) :
  B64.items (B64.props c) = [] -> B64.viewportItemsRef fuel c = Some [].
Proof.
  intros Hnil. destruct (B64.listHeight c) as [height |] eqn:Hh.
  - apply (viewportItems64_not_entered fuel c height Hh).
    apply le_not_negative_negative; [apply Math_max_zero_not_negative |].
    unfold B64.endIndex. cbv zeta. apply Math_min_negative.
    unfold B64.items_length. by rewrite Hnil.
  - unfold B64.viewportItemsRef. by rewrite Hh.
Qed.

(** C1 (as amended).  In binary64, for every input: the start index is
    never below 0, the end index never above [itemCount - 1]; the start
    index may exceed the end index, and whenever it does, and whenever there
    are no items, the window is empty.  On integer sizes and offsets, where
    the arithmetic is exact, and for a non-empty sequence with a positive
    item size and non-negative padding, height and offset: [0 <= startIndex],
    [endIndex <= itemCount - 1], and [startIndex <= endIndex] holds exactly
    when the scroll offset is below [paddingTop + (itemCount + 1) *
    itemSize]. *)
Theorem visible_window_bounds :
  (forall c : B64.Instance,
      B64.lt (B64.startIndexRef c) B64.zero = false
      /\ (forall height : B64.b64,
             B64.listHeight c = Some height ->
             B64.lt (B64.sub (B64.items_length (B64.props c)) B64.one)
                    (B64.endIndex c height) = false
             /\ (B64.le (B64.startIndexRef c) (B64.endIndex c height) = false ->
                 forall fuel : nat, B64.viewportItemsRef fuel c = Some []))
      /\ (B64.items (B64.props c) = [] ->
          forall fuel : nat, B64.viewportItemsRef fuel c = Some []))
  /\ (forall (c : Instance) (height : number),
         listHeight c = Some height ->
         0 < items_length (props c) ->
         (0 < itemSize (props c))%Q ->
         (0 <= paddingTop (props c))%Q ->
         (0 <= height)%Q ->
         (0 <= scrollTop c)%Q ->
         exact_geometry c height ->
         0 <= startIndexRef c
         /\ endIndex c height <= items_length (props c) - 1
         /\ (startIndexRef c <= endIndex c height
             <-> (scrollTop c
                  < paddingTop (props c)
                    + inject_Z (items_length (props c) + 1) * itemSize (props c))%Q)
         /\ (endIndex c height < startIndexRef c -> viewportItemsRef c = [])).
Proof.
  split.
  - intros c. split; [apply Math_max_not_below |]. split.
    + intros height Hh. split; [apply Math_min_not_above |].
      intros Hle fuel. by apply (viewportItems64_not_entered fuel c height).
    + intros Hnil fuel. by apply viewportItems64_no_items.
  - intros c height Hh Hn Hsz Hpad Hheight Hs _.
    split; [apply startIndexRef_nonneg |].
    split; [apply endIndex_le |].
    split; [by apply window_order_iff |].
    by apply viewportItems_nil_of_gt.
Qed.

Lemma visible_window_bounds_witness :
  (* rows of 0.1, nine of them, scrolled to 1: start 9, end 8, empty window *)
  B64.viewportItemsRef 10
    (sample64_instance 9 (B64.dec 1 10) B64.zero (B64.of_Z 100) (B64.of_Z 1))
  = Some []
  (* a thousand rows of 30 scrolled to 305 *)
  /\ startIndexRef (sample_instance 1000 30 0 (Some 100%Q) 305)
     <= endIndex (sample_instance 1000 30 0 (Some 100%Q) 305) 100
  (* one row of 10 scrolled to 100 *)
  /\ viewportItemsRef overscrolled = [].
Proof.
  destruct visible_window_bounds as [HA HB].
  split; [| split].
  - destruct (HA (sample64_instance 9 (B64.dec 1 10) B64.zero (B64.of_Z 100)
                    (B64.of_Z 1))) as (_ & H & _).
    destruct (H (B64.of_Z 100) eq_refl) as [_ H']. apply H'. by vm_compute.
  - destruct (HB (sample_instance 1000 30 0 (Some 100%Q) 305) 100%Q)
      as (_ & _ & H & _);
      [reflexivity | reflexivity | reflexivity | discriminate | discriminate
      | discriminate | | apply H; reflexivity].
    repeat split; try (by eexists; reflexivity). discriminate.
  - destruct (HB overscrolled 100%Q) as (_ & _ & _ & H);
      [reflexivity | reflexivity | reflexivity | discriminate | discriminate
      | discriminate | | apply H; reflexivity].
    repeat split; try (by eexists; reflexivity). discriminate.
Defined.

(** * Further properties *)

Lemma instant_host_exact : exact_host instant_host.
Proof. intros el t b. reflexivity. Qed.

Lemma sample_world_reachable :
  reachable instant_host (sample_world 100 20 0 200 0).
Proof.
  apply (reachable_mounted instant_host (sample_props 100 20 0)
           {| el_scrollTop := 0; el_offsetHeight := 200 |}).
  reflexivity.
Defined.

Lemma sample_scroll_exact :
  exact_scroll (sample_props 100 20 0)
    {| el_scrollTop := 0; el_offsetHeight := 200 |} 50.
Proof. repeat split; try (by eexists; reflexivity). discriminate. Qed.

Lemma scrolled_instance_exact : exact_geometry scrolled_instance 100.
Proof. repeat split; try (by eexists; reflexivity). discriminate. Qed.

(** ** Further properties of the visible window *)

Lemma inject_Z_sub (a b : Z) : (inject_Z (a - b) == inject_Z a - inject_Z b)%Q.
Proof. unfold Z.sub. rewrite inject_Z_plus, inject_Z_opp. ring. Qed.

Lemma Qdiv_le_mono (x y sz : Q) : (0 < sz)%Q -> (x <= y)%Q -> (x / sz <= y / sz)%Q.
Proof.
  intros Hsz Hxy. unfold Qdiv. apply Qmult_le_compat_r; [exact Hxy |].
  apply Qlt_le_weak, Qinv_lt_0_compat, Hsz.
Qed.

(** The rows that fit between the padding and the scroll offset. *)
Lemma rows_above_bounds (c : Instance) :
  (0 < itemSize (props c))%Q ->
  let F := Qfloor ((scrollTop c - paddingTop (props c)) / itemSize (props c)) in
  (inject_Z F * itemSize (props c) <= scrollTop c - paddingTop (props c))%Q
  /\ (scrollTop c - paddingTop (props c) < inject_Z (F + 1) * itemSize (props c))%Q
  /\ F - 1 <= startIndexRef c.
Proof.
  intros Hsz F. split; [| split].
  - apply Qdiv_ge_iff; [done |]. apply Qfloor_le.
  - apply Qdiv_lt_iff; [done |]. apply Qlt_floor.
  - apply Z.le_max_l.
Qed.

Lemma length_viewportItems (c : Instance) (height : number) :
  listHeight c = Some height ->
  length (viewportItemsRef c) = Z.to_nat (endIndex c height + 1 - startIndexRef c).
Proof.
  intros Hh. rewrite viewportItems_reads, (viewportReads_prepared c height Hh).
  by rewrite length_map, length_seqZ.
Qed.

(** X1.  On integer sizes and offsets, where the arithmetic is exact, and
    with the height known, every row of the sequence that overlaps the
    viewport, and also the row that ends less than one row height above it,
    is read by the loop of [viewportItemsRef] and is in the visible window. *)
Theorem window_covers_viewport (c : Instance) (height : number) (i : Z) :
  listHeight c = Some height ->
  (0 < itemSize (props c))%Q ->
  exact_geometry c height ->
  0 <= i <= items_length (props c) - 1 ->
  (scrollTop c < paddingTop (props c) + inject_Z (i + 2) * itemSize (props c))%Q ->
  (paddingTop (props c) + inject_Z i * itemSize (props c) < scrollTop c + height)%Q ->
  i ∈ viewportReads c
  /\ js_index (items (props c)) i ∈ viewportItemsRef c
  /\ is_Some (js_index (items (props c)) i).
Proof.
  intros Hh Hsz _ Hi Htop Hbot.
  assert (Hin : i ∈ viewportReads c).
  { rewrite (viewportReads_prepared c height Hh), elem_of_seqZ.
    destruct (rows_above_bounds c Hsz) as (Hlo & Hhi & Hstart).
    set (F := Qfloor ((scrollTop c - paddingTop (props c)) / itemSize (props c))) in *.
    assert (Hs : startIndexRef c <= i).
    { unfold startIndexRef. fold F.
      assert (F < i + 2); [| lia].
      apply Qfloor_lt_iff, Qdiv_lt_iff; [done | lra]. }
    split; [exact Hs |].
    assert (i <= endIndex c height); [| lia].
    unfold endIndex. cbv zeta. apply Z.min_glb; [| lia].
    assert (i - startIndexRef c - 2
            < Qceiling
                (Qmin height
                   (itemSize (props c) * inject_Z (items_length (props c))
                    + paddingTop (props c) - scrollTop c) / itemSize (props c)));
      [| lia].
    apply Qceiling_gt_iff, Qdiv_gt_iff; [done |].
    assert (Hk : (inject_Z (i - startIndexRef c - 2) * itemSize (props c)
                  <= (inject_Z i - inject_Z (F + 1)) * itemSize (props c))%Q).
    { apply Qmult_le_compat_r; [| by apply Qlt_le_weak].
      rewrite <- inject_Z_sub, <- Zle_Qle. lia. }
    assert (Hn : (inject_Z i <= inject_Z (items_length (props c)) - 1)%Q).
    { change 1%Q with (inject_Z 1). rewrite <- inject_Z_sub, <- Zle_Qle. lia. }
    assert (Hn' : (inject_Z i * itemSize (props c)
                   <= (inject_Z (items_length (props c)) - 1) * itemSize (props c))%Q).
    { apply Qmult_le_compat_r; [exact Hn | by apply Qlt_le_weak]. }
    apply Q.min_glb_lt; lra. }
  split; [exact Hin |]. split.
  - rewrite viewportItems_reads. apply list_elem_of_fmap. by exists i.
  - by apply js_index_is_Some.
Qed.

Lemma window_covers_viewport_witness :
  9 ∈ viewportReads scrolled_instance /\ 13 ∈ viewportReads scrolled_instance.
Proof.
  split.
  - apply (window_covers_viewport scrolled_instance 100 9);
      [reflexivity | reflexivity | apply scrolled_instance_exact
      | split; discriminate | reflexivity | reflexivity].
  - apply (window_covers_viewport scrolled_instance 100 13);
      [reflexivity | reflexivity | apply scrolled_instance_exact
      | split; discriminate | reflexivity | reflexivity].
Defined.

(** X2.  The visible window never holds more than
    [ceil(viewportHeight / itemSize) + 2] items, however long the item
    sequence is. *)
Theorem window_size_bounded (c : Instance) (height : number) :
  listHeight c = Some height ->
  (0 < itemSize (props c))%Q ->
  (0 <= height)%Q ->
  Z.of_nat (length (viewportItemsRef c))
  <= Qceiling (height / itemSize (props c)) + 2.
Proof.
  intros Hh Hsz Hheight. rewrite (length_viewportItems c height Hh).
  assert (Hrows :
    Qceiling
      (Qmin height
         (itemSize (props c) * inject_Z (items_length (props c))
          + paddingTop (props c) - scrollTop c) / itemSize (props c))
    <= Qceiling (height / itemSize (props c))).
  { apply Qceiling_resp_le, Qdiv_le_mono; [done | apply Q.le_min_l]. }
  assert (Hpos : -3 < Qceiling (height / itemSize (props c))).
  { apply Qceiling_gt_iff, Qdiv_gt_iff; [done |].
    change (inject_Z (-3)) with (-3)%Q. lra. }
  assert (Hend : endIndex c height
                 <= startIndexRef c
                    + Qceiling
                        (Qmin height
                           (itemSize (props c) * inject_Z (items_length (props c))
                            + paddingTop (props c) - scrollTop c)
                         / itemSize (props c)) + 1)
    by apply Z.le_min_l.
  lia.
Qed.

Lemma window_size_bounded_witness :
  Z.of_nat (length (viewportItemsRef scrolled_instance)) <= 6.
Proof.
  apply (window_size_bounded scrolled_instance 100);
    [reflexivity | reflexivity | discriminate].
Defined.



(** X4.  With the same props, a larger scroll offset never gives a smaller
    start index. *)
Theorem startIndex_monotone (c c' : Instance) :
  props c = props c' ->
  (0 < itemSize (props c))%Q ->
  (scrollTop c <= scrollTop c')%Q ->
  startIndexRef c <= startIndexRef c'.
Proof.
  intros Hp Hsz Hle. unfold startIndexRef. rewrite <- Hp.
  apply Z.max_le_compat_r, Z.sub_le_mono_r, Qfloor_resp_le, Qdiv_le_mono; [done |].
  lra.
Qed.

Lemma startIndex_monotone_witness :
  startIndexRef scrolled_instance
  <= startIndexRef (sample_instance 1000 30 0 (Some 100%Q) 400).
Proof.
  apply startIndex_monotone; [reflexivity | reflexivity | discriminate].
Defined.

(** X5.  On integer sizes and offsets, where the arithmetic is exact, the
    window starts at row 0 exactly while the scroll offset is less than two
    rows past the top padding; this includes negative offsets. *)
Theorem startIndex_zero_iff (c : Instance) :
  (0 < itemSize (props c))%Q ->
  exact_start c ->
  startIndexRef c = 0
  <-> (scrollTop c < paddingTop (props c) + 2 * itemSize (props c))%Q.
Proof.
  intros Hsz _. unfold startIndexRef.
  set (x := (scrollTop c - paddingTop (props c))%Q).
  transitivity (Qfloor (x / itemSize (props c)) < 2); [lia |].
  rewrite Qfloor_lt_iff, Qdiv_lt_iff by done.
  change (inject_Z 2) with 2%Q. subst x. split; intros H; lra.
Qed.

Lemma startIndex_zero_iff_witness :
  startIndexRef (sample_instance 1000 30 0 (Some 100%Q) 59) = 0.
Proof.
  apply (startIndex_zero_iff (sample_instance 1000 30 0 (Some 100%Q) 59));
    [reflexivity | | reflexivity].
  repeat split; try (by eexists; reflexivity). discriminate.
Defined.

(** X6.  On integer sizes and offsets, where the arithmetic is exact: when
    the window is not empty, the translation of the visible block is
    non-negative, and translation plus rendered rows times [itemSize] stays
    within the height given to the items box. *)
Theorem visible_block_inside_items_box (c : Instance) (height : number) :
  listHeight c = Some height ->
  (0 < itemSize (props c))%Q ->
  exact_geometry c height ->
  viewportItemsRef c <> [] ->
  match visibleItemsStyle c with
  | translate3d _ y _ =>
      (0 <= y)%Q
      /\ (y + inject_Z (Z.of_nat (length (viewportItemsRef c))) * itemSize (props c)
          <= is_height_px (itemsStyle c))%Q
  end.
Proof.
  intros Hh Hsz _ Hne. simpl.
  pose proof (startIndexRef_nonneg c) as Hs.
  pose proof (endIndex_le c height) as He.
  assert (Hlen : (0 < length (viewportItemsRef c))%nat).
  { destruct (viewportItemsRef c); [done | simpl; lia]. }
  rewrite (length_viewportItems c height Hh) in *.
  split.
  - apply Qmult_le_0_compat; [| by apply Qlt_le_weak].
    change 0%Q with (inject_Z 0). by rewrite <- Zle_Qle.
  - rewrite <- Qmult_plus_distr_l, <- inject_Z_plus, (Qmult_comm (itemSize (props c))).
    apply Qmult_le_compat_r; [| by apply Qlt_le_weak].
    rewrite <- Zle_Qle. lia.
Qed.

Lemma visible_block_inside_items_box_witness :
  (0 <= inject_Z 9 * 30)%Q
  /\ (inject_Z 9 * 30 + inject_Z 6 * 30 <= 30 * inject_Z 1000)%Q.
Proof.
  apply (visible_block_inside_items_box scrolled_instance 100);
    [reflexivity | reflexivity | apply scrolled_instance_exact | by vm_compute].
Defined.



(** ** Further properties of rendering *)



(** ** Further properties of the key index *)

Lemma keyIndex_from_last (l : list ItemData) (start : nat) (m : gmap Key nat)
    (k : Key) (i : nat) :
  forEach_from (fun item index map => <[key item := index]> map) start l m !! k = Some i ->
  (m !! k = Some i /\ forall item, item ∈ l -> key item <> k)
  \/ exists (j : nat) (item : ItemData),
       l !! j = Some item /\ key item = k /\ i = (start + j)%nat
       /\ forall (j' : nat) (item' : ItemData),
            (j < j')%nat -> l !! j' = Some item' -> key item' <> k.
Proof.
  revert start m. induction l as [| a rest IH]; intros start m; simpl.
  - intros H. left. split; [done |]. intros item Hin. by apply elem_of_nil in Hin.
  - intros H. apply IH in H as [[H Hrest] | (j & item & Hj & Hk & -> & Hlater)].
    + destruct (decide (key a = k)) as [E | NE].
      * rewrite E, lookup_insert_eq in H. injection H as <-.
        right. exists 0%nat, a. split; [done |]. split; [done |]. split; [lia |].
        intros [| j'] item' Hlt Hj'; [lia |]. simpl in Hj'.
        apply Hrest. apply list_elem_of_lookup. by exists j'.
      * rewrite lookup_insert_ne in H by done. left. split; [done |].
        intros item Hin. apply elem_of_cons in Hin as [-> | Hin]; auto.
    + right. exists (S j), item. split; [done |]. split; [done |]. split; [lia |].
      intros [| j'] item' Hlt Hj'; [lia |]. simpl in Hj'.
      apply (Hlater j' item'); [lia | done].
Qed.

(** X8.  An index the key index gives for a key holds an item with that key,
    and no later item has it: of items sharing a key the last one wins. *)
Theorem key_index_last_wins (c : Instance) (k : Key) (i : nat) :
  keyIndexMapRef c !! k = Some i ->
  exists item : ItemData,
    items (props c) !! i = Some item
    /\ key item = k
    /\ forall (j : nat) (item' : ItemData),
         (i < j)%nat -> items (props c) !! j = Some item' -> key item' <> k.
Proof.
  intros H. apply keyIndex_from_last in H
    as [[H _] | (j & item & Hj & Hk & -> & Hlater)].
  - by rewrite lookup_empty in H.
  - exists item. simpl. done.
Qed.

Lemma key_index_last_wins_witness :
  exists item : ItemData,
    sample_items 5 !! 2%nat = Some item /\ key item = KNum (Q2Qc 2).
Proof.
  destruct (key_index_last_wins (sample_instance 5 30 0 None 0) (KNum (Q2Qc 2)) 2)
    as (item & H1 & H2 & _); [by vm_compute |].
  by exists item.
Defined.

(** X9.  The key index has an entry for a key exactly when some item has that
    key. *)
Theorem key_index_domain (c : Instance) (k : Key) :
  is_Some (keyIndexMapRef c !! k)
  <-> exists item : ItemData, item ∈ items (props c) /\ key item = k.
Proof.
  split.
  - intros [i Hi]. apply keyIndexMap_lookup_Some in Hi as (item & Hl & Hk).
    exists item. split; [| done]. apply list_elem_of_lookup. by exists i.
  - intros (item & Hin & Hk).
    destruct (keyIndexMapRef c !! k) as [i |] eqn:E; [done |].
    by destruct (proj1 (keyIndexMap_lookup_None c k) E item Hin).
Qed.

(** X10.  When the keys of the items are pairwise distinct, looking up the key
    of the item at index [i] gives back [i]. *)
Theorem key_index_roundtrip (c : Instance) (i : nat) (item : ItemData) :
  NoDup (key <$> items (props c)) ->
  items (props c) !! i = Some item ->
  keyIndexMapRef c !! key item = Some i.
Proof.
  intros Hnd Hi.
  destruct (keyIndexMapRef c !! key item) as [i' |] eqn:E.
  - apply keyIndex_from_Some in E as [E | (j & item' & Hj & Hk & ->)].
    + by rewrite lookup_empty in E.
    + f_equal. simpl.
      apply (NoDup_lookup (key <$> items (props c)) j i (key item)); [done | |].
      * by rewrite list_lookup_fmap, Hj, <- Hk.
      * by rewrite list_lookup_fmap, Hi.
  - unfold keyIndexMapRef, forEach in E. apply keyIndex_from_None in E as [_ Hall].
    exfalso. apply (Hall item); [| done]. apply list_elem_of_lookup. by exists i.
Qed.

Lemma key_index_roundtrip_witness :
  keyIndexMapRef (sample_instance 5 30 0 None 0) !! KNum (Q2Qc 3) = Some 3%nat.
Proof.
  apply (key_index_roundtrip (sample_instance 5 30 0 None 0) 3
           (mkItem (KNum (Q2Qc 3)) "row")).
  - apply (bool_decide_unpack (NoDup _)). by vm_compute.
  - by vm_compute.
Defined.

(** ** Further properties of the scroll controller *)

Lemma scrollToIndex_effect host (i : number) (b : option ScrollBehavior)
    (d : bool) (w w' : World) :
  scrollToIndex host i b d w = Ok w' -> one_command_or_none host w w'.
Proof.
  unfold scrollToIndex, one_command_or_none.
  destruct (listRef (inst w)) as [el |]; destruct d; simpl;
    repeat case_match; intros Hok; try discriminate; injection Hok as <-;
    first [by left | right; eauto].
Qed.

Lemma scrollToPosition_effect host (l t : option number)
    (b : option ScrollBehavior) (w w' : World) :
  scrollToPosition host l t b w = Ok w' -> one_command_or_none host w w'.
Proof.
  unfold scrollToPosition, one_command_or_none.
  destruct (listRef (inst w)) as [el |]; intros Hok; try discriminate.
  injection Hok as <-. right. eauto.
Qed.

Lemma scrollTo_effect host (o : VScrollToOptions) (w w' : World) :
  scrollTo host o w = Ok w' -> one_command_or_none host w w'.
Proof.
  unfold scrollTo.
  destruct (bool_decide (left o <> None) || bool_decide (top o <> None));
    [apply scrollToPosition_effect |].
  destruct (index o); [apply scrollToIndex_effect |].
  destruct (okey o) as [k |].
  - destruct (keyIndexMapRef (inst w) !! k); [apply scrollToIndex_effect |].
    intros [= <-]. by left.
  - destruct (position o) as [[|] |]; [apply scrollToPosition_effect.. |].
    intros [= <-]. by left.
Qed.

(** X11.  A [scrollTo] call that returns never changes the props, the known
    height, the component's scroll offset, the guard flag or the frame
    queue; it either does nothing or hands exactly one scroll command to
    the list element. *)
Theorem scrollTo_only_commands_element host (o : VScrollToOptions) (w w' : World) :
  scrollTo host o w = Ok w' ->
  props (inst w') = props (inst w)
  /\ listHeight (inst w') = listHeight (inst w)
  /\ scrollTop (inst w') = scrollTop (inst w)
  /\ rafFlag (inst w') = rafFlag (inst w)
  /\ frames w' = frames w
  /\ (log w' = log w /\ listRef (inst w') = listRef (inst w)
      \/ exists (el : Element) (cmd : ScrollToOptions),
           listRef (inst w) = Some el
           /\ log w' = log w ++ [CallScrollTo cmd]
           /\ listRef (inst w') = Some (host el cmd)).
Proof.
  intros H. apply scrollTo_effect in H as [-> | (el & cmd & Hel & ->)].
  - repeat split; try done. by left.
  - repeat split; try done. right. exists el, cmd. done.
Qed.

Lemma scrollTo_only_commands_element_witness :
  exists w',
    scrollTo instant_host contradictory_options (sample_world 100 20 0 200 0) = Ok w'
    /\ scrollTop (inst w') = 0%Q
    /\ frames w' = [].
Proof.
  destruct (scrollTo_mounted instant_host contradictory_options
              (sample_world 100 20 0 200 0)) as (w' & E & _); [discriminate |].
  destruct (scrollTo_only_commands_element instant_host contradictory_options
              (sample_world 100 20 0 200 0) w' E) as (_ & _ & Hs & _ & Hf & _).
  exists w'. split; [exact E |]. split; [exact Hs | exact Hf].
Defined.

(** X12.  While [listRef] is [null], [scrollTo] throws a [TypeError], except
    for calls that issue no command: those with no navigation option, or
    whose first option is a key the index does not have; these leave the
    world as it is. *)
Theorem scrollTo_unmounted host (o : VScrollToOptions) (w : World) :
  listRef (inst w) = None ->
  (scrollTo host o w = Ok w \/ scrollTo host o w = TypeError)
  /\ (scrollTo host o w = Ok w
      <-> left o = None /\ top o = None /\ index o = None
          /\ match okey o with
             | Some k => keyIndexMapRef (inst w) !! k = None
             | None => position o = None
             end).
Proof.
  intros Hnull. unfold scrollTo, scrollToPosition, scrollToIndex. rewrite Hnull.
  destruct (left o), (top o), (index o), (okey o) as [k |]; simpl;
    try (split; [by right | split; [done | by intros (? & ? & ? & ?)]]).
  - destruct (default true (debounce o)); simpl;
      (split; [by right | split; [done | by intros (? & ? & ? & ?)]]).
  - destruct (default true (debounce o)); simpl;
      (split; [by right | split; [done | by intros (? & ? & ? & ?)]]).
  - destruct (keyIndexMapRef (inst w) !! k); simpl.
    + destruct (default true (debounce o)); simpl;
        (split; [by right | split; [done | by intros (? & ? & ? & ?)]]).
    + split; [by left | done].
  - destruct (position o) as [[|] |]; simpl;
      try (split; [by right | split; [done | by intros (? & ? & ? & ?)]]).
    split; [by left | done].
Qed.

Lemma scrollTo_unmounted_witness :
  scrollTo instant_host contradictory_options unmounted_world = TypeError
  /\ scrollTo instant_host
       {| left := None; top := None; index := None;
          okey := Some (KStr "missing"); position := Some PositionTop;
          behavior := None; debounce := None |} unmounted_world
     = Ok unmounted_world.
Proof.
  split.
  - destruct (scrollTo_unmounted instant_host contradictory_options unmounted_world)
      as [[H | H] Hiff]; [reflexivity | | exact H].
    apply Hiff in H as (H & _). discriminate H.
  - destruct (scrollTo_unmounted instant_host
                {| left := None; top := None; index := None;
                   okey := Some (KStr "missing"); position := Some PositionTop;
                   behavior := None; debounce := None |} unmounted_world eq_refl)
      as [_ Hiff].
    apply Hiff. repeat split; by vm_compute.
Defined.

(** What a debounced scroll-to-index leaves behind on an exact host. *)
Lemma debounced_scroll_outcome host (w : World) (el : Element)
    (i : number) (b : option ScrollBehavior) :
  exact_host host ->
  listRef (inst w) = Some el ->
  let p := props (inst w) in
  let targetTop := (i * itemSize p + paddingTop p)%Q in
  exists (w' : World) (el' : Element),
    scrollToIndex host i b true w = Ok w'
    /\ listRef (inst w') = Some el'
    /\ props (inst w') = p
    /\ el_offsetHeight el' = el_offsetHeight el
    /\ ((el_scrollTop el' <= targetTop
         /\ targetTop + itemSize p <= el_scrollTop el' + el_offsetHeight el')%Q
        <-> (itemSize p <= el_offsetHeight el)%Q).
Proof.
  intros Hhost Hel p targetTop. unfold scrollToIndex. rewrite Hel. simpl.
  fold p. fold targetTop.
  destruct (num_gt targetTop (el_scrollTop el)) eqn:Hgt.
  - apply num_gt_spec in Hgt.
    destruct (num_le (targetTop + itemSize p) (el_scrollTop el + el_offsetHeight el))
      eqn:Hin.
    + apply num_le_spec in Hin. exists w, el.
      repeat split; try done; intros; lra.
    + apply num_le_false in Hin.
      exists (element_scrollTo host el
                (scroll_command (targetTop + itemSize p - el_offsetHeight el) b) w),
        (host el (scroll_command (targetTop + itemSize p - el_offsetHeight el) b)).
      split; [reflexivity |]. split; [reflexivity |].
      rewrite Hhost. simpl. repeat split; try done; intros; lra.
  - apply num_gt_false in Hgt.
    exists (element_scrollTo host el (scroll_command targetTop b) w),
      (host el (scroll_command targetTop b)).
    split; [reflexivity |]. split; [reflexivity |].
    rewrite Hhost. simpl. repeat split; try done; intros; lra.
Qed.

(** X13.  On integer sizes, offsets and index, where the arithmetic is
    exact, and on a host that moves the element exactly where a command
    says, debounced scroll-to-index always succeeds on a mounted list, and
    afterwards the item lies wholly inside the viewport exactly when the
    item is not taller than the viewport. *)
Theorem debounced_scroll_shows_item host (w : World) (el : Element)
    (i : number) (b : option ScrollBehavior) :
  exact_host host ->
  listRef (inst w) = Some el ->
  exact_scroll (props (inst w)) el i ->
  let p := props (inst w) in
  let targetTop := (i * itemSize p + paddingTop p)%Q in
  exists (w' : World) (el' : Element),
    scrollToIndex host i b true w = Ok w'
    /\ listRef (inst w') = Some el'
    /\ props (inst w') = p
    /\ el_offsetHeight el' = el_offsetHeight el
    /\ ((el_scrollTop el' <= targetTop
         /\ targetTop + itemSize p <= el_scrollTop el' + el_offsetHeight el')%Q
        <-> (itemSize p <= el_offsetHeight el)%Q).
Proof. intros Hhost Hel _. by apply debounced_scroll_outcome. Qed.

Lemma debounced_scroll_shows_item_witness :
  exists (w' : World) (el' : Element),
    scrollToIndex instant_host 50 None true (sample_world 100 20 0 200 0) = Ok w'
    /\ listRef (inst w') = Some el'
    /\ (el_scrollTop el' <= 1000)%Q
    /\ (1020 <= el_scrollTop el' + el_offsetHeight el')%Q.
Proof.
  destruct (debounced_scroll_shows_item instant_host (sample_world 100 20 0 200 0)
              {| el_scrollTop := 0; el_offsetHeight := 200 |} 50 None
              instant_host_exact eq_refl sample_scroll_exact)
    as (w' & el' & E & Hl & _ & _ & Hvis).
  exists w', el'. split; [exact E |]. split; [exact Hl |].
  apply Hvis. discriminate.
Defined.

(** X14.  On integer sizes, offsets and index, on such a host and for an
    item not taller than the viewport, a second debounced scroll-to-index
    for the same index leaves the element at the offset where the first one
    put it. *)
Theorem debounced_scroll_settles host (w w1 w2 : World) (el el1 el2 : Element)
    (i : number) (b : option ScrollBehavior) :
  exact_host host ->
  listRef (inst w) = Some el ->
  exact_scroll (props (inst w)) el i ->
  (itemSize (props (inst w)) <= el_offsetHeight el)%Q ->
  scrollToIndex host i b true w = Ok w1 ->
  scrollToIndex host i b true w1 = Ok w2 ->
  listRef (inst w1) = Some el1 ->
  listRef (inst w2) = Some el2 ->
  (el_scrollTop el2 == el_scrollTop el1)%Q
  /\ el_offsetHeight el2 = el_offsetHeight el1.
Proof.
  intros Hhost Hel _ Hfit H1 H2 Hel1 Hel2.
  destruct (debounced_scroll_outcome host w el i b Hhost Hel)
    as (w1' & el1' & E1 & Hl1 & Hp1 & Hoh1 & Hvis1).
  rewrite E1 in H1. injection H1 as <-. rewrite Hl1 in Hel1. injection Hel1 as <-.
  apply Hvis1 in Hfit as [Htop Hbot].
  unfold scrollToIndex in H2. rewrite Hl1, Hp1 in H2. simpl in H2.
  destruct (num_gt _ (el_scrollTop el1')) eqn:Hgt.
  - apply num_gt_spec in Hgt. apply num_le_spec in Hbot. rewrite Hbot in H2.
    injection H2 as <-. rewrite Hl1 in Hel2. by injection Hel2 as <-.
  - apply num_gt_false in Hgt. injection H2 as <-. simpl in Hel2.
    injection Hel2 as <-.
    match goal with
    | |- context [host el1' ?cmd] =>
        change cmd with (scroll_command
          (i * itemSize (props (inst w)) + paddingTop (props (inst w))) b)
    end.
    rewrite Hhost. simpl. split; [| done]. lra.
Qed.

Lemma debounced_scroll_settles_witness :
  exists w1 w2 el1 el2,
    scrollToIndex instant_host 50 None true (sample_world 100 20 0 200 0) = Ok w1
    /\ scrollToIndex instant_host 50 None true w1 = Ok w2
    /\ listRef (inst w1) = Some el1
    /\ listRef (inst w2) = Some el2
    /\ (el_scrollTop el2 == el_scrollTop el1)%Q.
Proof.
  eexists _, _, _, _.
  split; [reflexivity |]. split; [reflexivity |].
  split; [reflexivity |]. split; [reflexivity |].
  eapply proj1,
    (debounced_scroll_settles instant_host (sample_world 100 20 0 200 0) _ _
       {| el_scrollTop := 0; el_offsetHeight := 200 |} _ _ 50 None
       instant_host_exact eq_refl sample_scroll_exact);
    [discriminate | reflexivity..].
Defined.

(** ** Further properties of mounting and of the event handlers *)

(** X15.  The [onMounted] hook never fails; it issues at most one scroll
    command, none when no default target is configured; a default index
    takes precedence over a default key and is scrolled to with debounce;
    and after the hook the component is still unprepared, with an empty
    window. *)
Theorem onMounted_after_setup host (p : Props) (el : Element) :
  exists w : World,
    onMounted host (setup p el) = Ok w
    /\ one_command_or_none host (setup p el) w
    /\ (length (log w) <= 1)%nat
    /\ listHeight (inst w) = None
    /\ viewportItemsRef (inst w) = []
    /\ (forall i : number,
           defaultScrollIndex p = Some i ->
           onMounted host (setup p el) = scrollToIndex host i None true (setup p el))
    /\ (defaultScrollIndex p = None -> defaultScrollKey p = None -> w = setup p el).
Proof.
  assert (Hm : listRef (inst (setup p el)) <> None) by done.
  assert (E : exists w, onMounted host (setup p el) = Ok w
                        /\ one_command_or_none host (setup p el) w).
  { unfold onMounted. simpl. destruct (defaultScrollIndex p) as [i |].
    - destruct (scrollTo_mounted host
                  {| left := None; top := None; index := Some i; okey := None;
                     position := None; behavior := None; debounce := None |}
                  (setup p el) Hm) as (w & E & _).
      exists w. split; [done | by apply scrollTo_effect in E].
    - destruct (defaultScrollKey p) as [k |].
      + destruct (scrollTo_mounted host
                    {| left := None; top := None; index := None; okey := Some k;
                       position := None; behavior := None; debounce := None |}
                    (setup p el) Hm) as (w & E & _).
        exists w. split; [done | by apply scrollTo_effect in E].
      + exists (setup p el). split; [done | by left]. }
  destruct E as (w & E & Heff). exists w. split; [exact E |]. split; [exact Heff |].
  assert (Hh : listHeight (inst w) = None /\ (length (log w) <= 1)%nat).
  { destruct Heff as [-> | (el' & cmd & _ & ->)]; simpl; split; (done || lia). }
  destruct Hh as [Hh Hlog].
  split; [exact Hlog |]. split; [exact Hh |].
  split; [unfold viewportItemsRef; by rewrite Hh |].
  split.
  - intros i Hi. unfold onMounted. simpl. by rewrite Hi.
  - intros Hi Hk. unfold onMounted in E. simpl in E. rewrite Hi, Hk in E.
    by injection E as <-.
Qed.

Lemma run_callbacks_keeps (cbs : list Callback) (w w' : World) :
  run_callbacks cbs w = Ok w' ->
  props (inst w') = props (inst w)
  /\ listHeight (inst w') = listHeight (inst w)
  /\ listRef (inst w') = listRef (inst w)
  /\ log w' = log w.
Proof.
  revert w. induction cbs as [| cb cbs IH]; intros w; simpl.
  - by intros [= <-].
  - destruct cb. simpl. unfold syncViewport.
    destruct (listRef (inst w)) as [el |] eqn:Hel; [| intros; discriminate].
    intros H. apply IH in H as (Hp & Hh & Hl & Hlog). simpl in *.
    by rewrite Hp, Hh, Hl, Hlog.
Qed.

(** X16.  No turn of the event loop takes a known height away: once
    prepared, the component stays prepared. *)
Theorem prepared_is_kept host (w w' : World) :
  step host w w' ->
  preparedRef (inst w) = true ->
  preparedRef (inst w') = true.
Proof.
  intros Hstep. unfold preparedRef.
  destruct Hstep as [newTop e w | entry w | w w' Hrun | o w w' Hs | p w].
  - destruct (handleListScroll_keeps e (element_scrolled newTop w)) as (_ & _ & -> & _).
    unfold element_scrolled. by destruct (listRef (inst w)).
  - intros _. unfold handleListResize. simpl.
    by destruct (onResize (props (inst w))).
  - unfold run_frame in Hrun. apply run_callbacks_keeps in Hrun as (_ & -> & _).
    done.
  - by apply scrollTo_effect in Hs as [-> | (el & cmd & _ & ->)].
  - done.
Qed.

Lemma prepared_is_kept_witness :
  preparedRef
    (inst (handleListScroll (mkUIEvent 1)
             (element_scrolled 100
                (handleListResize (mkEntry 200) (sample_world 100 20 0 200 0)))))
  = true.
Proof.
  apply (prepared_is_kept instant_host
           (handleListResize (mkEntry 200) (sample_world 100 20 0 200 0)));
    [apply step_scroll | reflexivity].
Defined.

(** X17.  Only the run of a frame changes the component's scroll offset:
    scroll events, resize reports, [scrollTo] calls and prop changes leave
    it as it is. *)
Theorem scrollTop_changes_only_in_frames host (w w' : World) :
  step host w w' ->
  scrollTop (inst w') <> scrollTop (inst w) ->
  run_frame w = Ok w'.
Proof.
  intros Hstep Hne.
  destruct Hstep as [newTop e w | entry w | w w' Hrun | o w w' Hs | p w].
  - exfalso. apply Hne.
    destruct (handleListScroll_keeps e (element_scrolled newTop w)) as (-> & _).
    unfold element_scrolled. by destruct (listRef (inst w)).
  - exfalso. apply Hne. unfold handleListResize. simpl.
    by destruct (onResize (props (inst w))).
  - exact Hrun.
  - exfalso. apply Hne. by apply scrollTo_effect in Hs as [-> | (el & cmd & _ & ->)].
  - by exfalso.
Qed.

Lemma scrollTop_changes_only_in_frames_witness :
  run_frame after_scroll_event
  = Ok (set_inst (with_rafFlag false)
          (set_inst (with_scrollTop 100)
             {| inst := inst after_scroll_event; frames := [];
                log := log after_scroll_event |})).
Proof.
  apply (scrollTop_changes_only_in_frames instant_host);
    [apply step_frame; reflexivity | discriminate].
Defined.

(** X18.  For a mounted component with the guard flag clear, a display
    refresh changes nothing. *)
Theorem idle_frame_is_noop host (w : World) :
  reachable host w ->
  rafFlag (inst w) = false ->
  run_frame w = Ok w.
Proof.
  intros Hreach Hflag.
  destruct (reachable_frame_invariant host w Hreach) as [Hq _].
  rewrite Hflag in Hq. unfold run_frame. rewrite Hq. simpl.
  destruct w as [c q l]. simpl in *. by rewrite Hq.
Qed.

Lemma idle_frame_is_noop_witness :
  run_frame (sample_world 100 20 0 200 0) = Ok (sample_world 100 20 0 200 0).
Proof.
  apply (idle_frame_is_noop instant_host); [apply sample_world_reachable | reflexivity].
Defined.

(** *** Coalescing *)

Lemma count_calls_app (f : HostCall -> bool) (l1 l2 : list HostCall) :
  count_calls f (l1 ++ l2) = (count_calls f l1 + count_calls f l2)%nat.
Proof. unfold count_calls. by rewrite List.filter_app, length_app. Qed.

Lemma default_last_cons (d t : number) (ts : list number) :
  default d (list.last (t :: ts)) = default t (list.last ts).
Proof.
  destruct ts as [| t' ts]; [done |]. rewrite last_cons_cons.
  destruct (list.last (t' :: ts)) eqn:E; [done |]. by apply last_None in E.
Qed.

Lemma scroll_events_cons (newTop : number) (e : UIEvent)
    (evs : list (number * UIEvent)) (w : World) :
  scroll_events ((newTop, e) :: evs) w
  = scroll_events evs (handleListScroll e (element_scrolled newTop w)).
Proof. reflexivity. Qed.

Lemma scroll_events_pending (evs : list (number * UIEvent)) (w : World) (el : Element) :
  rafFlag (inst w) = true ->
  listRef (inst w) = Some el ->
  let w1 := scroll_events evs w in
  rafFlag (inst w1) = true
  /\ frames w1 = frames w
  /\ props (inst w1) = props (inst w)
  /\ scrollTop (inst w1) = scrollTop (inst w)
  /\ listRef (inst w1)
     = Some {| el_scrollTop := default (el_scrollTop el) (list.last (fst <$> evs));
               el_offsetHeight := el_offsetHeight el |}
  /\ count_calls is_nextFrame (log w1) = count_calls is_nextFrame (log w)
  /\ count_calls is_onScroll (log w1)
     = (count_calls is_onScroll (log w)
        + if onScroll (props (inst w)) then length evs else 0)%nat.
Proof.
  revert w el. induction evs as [| [newTop e] evs IH]; intros w el Hflag Hel.
  - simpl. rewrite Hel. destruct el. repeat split; try done.
    destruct (onScroll (props (inst w))); lia.
  - rewrite scroll_events_cons, fmap_cons, default_last_cons.
    cbn [fst length].
    set (w0 := handleListScroll e (element_scrolled newTop w)).
    assert (H0 : rafFlag (inst w0) = true
                 /\ frames w0 = frames w
                 /\ props (inst w0) = props (inst w)
                 /\ scrollTop (inst w0) = scrollTop (inst w)
                 /\ listRef (inst w0)
                    = Some {| el_scrollTop := newTop;
                              el_offsetHeight := el_offsetHeight el |}
                 /\ count_calls is_nextFrame (log w0)
                    = count_calls is_nextFrame (log w)
                 /\ count_calls is_onScroll (log w0)
                    = (count_calls is_onScroll (log w)
                       + if onScroll (props (inst w)) then 1 else 0)%nat).
    { subst w0. unfold handleListScroll, element_scrolled. rewrite Hel. simpl.
      rewrite Hflag. simpl.
      destruct (onScroll (props (inst w))); simpl;
        rewrite ?count_calls_app; unfold count_calls; simpl;
      repeat split; try done; lia. }
    destruct H0 as (Hf0 & Hq0 & Hp0 & Hs0 & Hl0 & Hn0 & Ho0).
    destruct (IH w0 _ Hf0 Hl0) as (Hf & Hq & Hp & Hs & Hl & Hn & Ho).
    split; [done |]. split; [congruence |]. split; [congruence |].
    split; [congruence |]. split; [by rewrite Hl |].
    split; [congruence |]. rewrite Ho, Hp0, Ho0.
    destruct (onScroll (props (inst w))); lia.
Qed.

(** X19.  Any non-empty burst of scroll events arriving while no
    recomputation is pending queues [syncViewport] once, calls [onScroll]
    once for each event (when the observer is given), leaves the component's
    scroll offset untouched, and the next frame sets it to the offset of the
    last event without calling any observer. *)
Theorem scroll_events_coalesce host (evs : list (number * UIEvent)) (w : World) :
  reachable host w ->
  rafFlag (inst w) = false ->
  evs <> [] ->
  let w1 := scroll_events evs w in
  frames w1 = [CbSyncViewport]
  /\ count_calls is_nextFrame (log w1) = S (count_calls is_nextFrame (log w))
  /\ count_calls is_onScroll (log w1)
     = (count_calls is_onScroll (log w)
        + if onScroll (props (inst w)) then length evs else 0)%nat
  /\ scrollTop (inst w1) = scrollTop (inst w)
  /\ exists (w2 : World) (newTop : number),
       list.last (fst <$> evs) = Some newTop
       /\ run_frame w1 = Ok w2
       /\ scrollTop (inst w2) = newTop
       /\ rafFlag (inst w2) = false
       /\ frames w2 = []
       /\ log w2 = log w1.
Proof.
  intros Hreach Hflag Hne.
  destruct (reachable_frame_invariant host w Hreach) as [Hq Hm].
  rewrite Hflag in Hq.
  destruct (listRef (inst w)) as [el |] eqn:Hel; [| done].
  destruct evs as [| [newTop e] evs]; [done |].
  rewrite scroll_events_cons, fmap_cons. cbn [fst length].
  set (w0 := handleListScroll e (element_scrolled newTop w)).
  assert (H0 : rafFlag (inst w0) = true
               /\ frames w0 = [CbSyncViewport]
               /\ props (inst w0) = props (inst w)
               /\ scrollTop (inst w0) = scrollTop (inst w)
               /\ listRef (inst w0)
                  = Some {| el_scrollTop := newTop;
                            el_offsetHeight := el_offsetHeight el |}
               /\ count_calls is_nextFrame (log w0)
                  = S (count_calls is_nextFrame (log w))
               /\ count_calls is_onScroll (log w0)
                  = (count_calls is_onScroll (log w)
                     + if onScroll (props (inst w)) then 1 else 0)%nat).
  { subst w0. unfold handleListScroll, element_scrolled. rewrite Hel. simpl.
    rewrite Hflag. simpl.
    destruct (onScroll (props (inst w))); simpl; rewrite Hq;
      rewrite ?count_calls_app; unfold count_calls; simpl;
      repeat split; try done; lia. }
  destruct H0 as (Hf0 & Hq0 & Hp0 & Hs0 & Hl0 & Hn0 & Ho0).
  destruct (scroll_events_pending evs w0 _ Hf0 Hl0) as (Hf & Hq1 & Hp & Hs & Hl & Hn & Ho).
  split; [congruence |]. split; [congruence |]. split.
  { rewrite Ho, Hp0, Ho0. destruct (onScroll (props (inst w))); lia. }
  split; [congruence |].
  eexists _, (default newTop (list.last (fst <$> evs))).
  split.
  { rewrite <- (default_last_cons newTop).
    destruct (list.last (newTop :: (fst <$> evs))) eqn:E; [done |].
    by apply last_None in E. }
  unfold run_frame. rewrite Hq1, Hq0. simpl. unfold syncViewport. simpl.
  rewrite Hl. split; [reflexivity |]. done.
Qed.

Lemma scroll_events_coalesce_witness :
  let w1 := scroll_events [(100%Q, mkUIEvent 1); (140%Q, mkUIEvent 2); (180%Q, mkUIEvent 3)]
              (sample_world 100 20 0 200 0) in
  frames w1 = [CbSyncViewport]
  /\ count_calls is_nextFrame (log w1) = 1%nat
  /\ count_calls is_onScroll (log w1) = 3%nat
  /\ exists w2, run_frame w1 = Ok w2 /\ scrollTop (inst w2) = 180%Q.
Proof.
  destruct (scroll_events_coalesce instant_host
              [(100%Q, mkUIEvent 1); (140%Q, mkUIEvent 2); (180%Q, mkUIEvent 3)]
              (sample_world 100 20 0 200 0) sample_world_reachable eq_refl)
    as (H1 & H2 & H3 & _ & w2 & t & Ht & Hrun & Hs & _); [discriminate |].
  split; [exact H1 |]. split; [exact H2 |]. split; [exact H3 |].
  exists w2. split; [exact Hrun |]. rewrite Hs. by injection Ht as <-.
Defined.
